(** * blockchain.py: a proof-of-work ledger

    A shallow embedding of the classes [Block] and [Blockchain] of
    [blockchain.py], together with the parts of the Python runtime they call
    (SHA-256, [json.dumps], [float.__repr__], list subscripts, integer
    division), and the properties of hashing, mining, validation and
    tampering proved about them.

    Python values are modelled as follows.
    - [int] is [Z]; [float] is the kernel's binary64 [float].
    - [str] is [string], each character standing for the code point of its
      byte (so the model covers text in U+0000..U+00FF).
    - a [list] is a [list], subscripted the way Python does it (negative
      subscripts count from the end, a subscript out of range raises).
    - a method of [Blockchain] is a computation in the monad [M]: it reads and
      writes the attributes of [self] and the clock, may raise an exception,
      and may run for ever (the mining loop), which the model renders by a
      bound on the number of iterations. *)

From Stdlib Require Import ZArith String Ascii List Lia Floats DecimalString.
From Stdlib Require OrderedTypeEx.
From stdpp Require Import base list strings.
Import ListNotations.
Open Scope Z_scope.

(** ** Python strings *)

Definition ord (c : ascii) : Z := Z.of_N (N_of_ascii c).
Definition chr (n : Z) : ascii := ascii_of_N (Z.to_N n).

(** [str(n)] and [repr(n)] of an [int]. *)
Definition str_of_int (n : Z) : string := NilZero.string_of_int (Z.to_int n).

(** [s * n]: [n] copies of [s], none when [n <= 0]. *)
Definition str_mul (s : string) (n : Z) : string :=
  String.concat EmptyString (replicate (Z.to_nat n) s).

(** [s.startswith(prefix)]. *)
Definition startswith (s prefix : string) : bool := String.prefix prefix s.

(** [s.encode()]: UTF-8. *)
Definition utf8_char (c : ascii) : list Z :=
  let n := ord c in
  if n <? 0x80 then [n]
  else [Z.lor 0xC0 (Z.shiftr n 6); Z.lor 0x80 (Z.land n 0x3F)].

Definition encode (s : string) : list Z :=
  concat (map utf8_char (list_ascii_of_string s)).

(** ** [hashlib.sha256] (FIPS 180-4) on 32-bit words held in [Z] *)

Module SHA256.

Definition mask32 : Z := 0xFFFFFFFF.
Definition add32 (a b : Z) : Z := Z.land (a + b) mask32.
Definition rotr (n x : Z) : Z :=
  Z.lor (Z.shiftr x n) (Z.land (Z.shiftl x (32 - n)) mask32).
Definition Ch (x y z : Z) : Z :=
  Z.lxor (Z.land x y) (Z.land (Z.lxor x mask32) z).
Definition Maj (x y z : Z) : Z :=
  Z.lxor (Z.lxor (Z.land x y) (Z.land x z)) (Z.land y z).
Definition Sigma0 (x : Z) : Z := Z.lxor (Z.lxor (rotr 2 x) (rotr 13 x)) (rotr 22 x).
Definition Sigma1 (x : Z) : Z := Z.lxor (Z.lxor (rotr 6 x) (rotr 11 x)) (rotr 25 x).
Definition sigma0 (x : Z) : Z := Z.lxor (Z.lxor (rotr 7 x) (rotr 18 x)) (Z.shiftr x 3).
Definition sigma1 (x : Z) : Z := Z.lxor (Z.lxor (rotr 17 x) (rotr 19 x)) (Z.shiftr x 10).

(** The largest [r] below [2^bits] with [r^k <= x], by bisection. *)
Fixpoint iroot (k : Z) (bits : nat) (x r : Z) : Z :=
  match bits with
  | O => r
  | S bits' =>
      let r' := r + 2 ^ Z.of_nat bits' in
      iroot k bits' x (if r' ^ k <=? x then r' else r)
  end.

(** The first 32 bits of the fractional part of the [k]-th root of [p]. *)
Definition root_fraction (k p : Z) : Z :=
  iroot k 40 (p * 2 ^ (32 * k)) 0 mod 2 ^ 32.

Definition is_prime (n : Z) : bool :=
  (1 <? n) && forallb (fun d => negb (n mod d =? 0)) (seqZ 2 (n - 2)).

Definition primes (count : nat) : list Z :=
  take count (List.filter is_prime (seqZ 2 400)).

(** The round constants: from the cube roots of the first 64 primes. *)
Definition K : list Z := Eval vm_compute in map (root_fraction 3) (primes 64).

(** The initial hash value: from the square roots of the first 8 primes. *)
Definition H0 : list Z := Eval vm_compute in map (root_fraction 2) (primes 8).

(** The [n] low bytes of [x], most significant first. *)
Fixpoint be_bytes (n : nat) (x : Z) : list Z :=
  match n with
  | O => []
  | S n' => Z.land (Z.shiftr x (8 * Z.of_nat n')) 0xFF :: be_bytes n' x
  end.

Fixpoint be_word (bs : list Z) (acc : Z) : Z :=
  match bs with
  | [] => acc
  | b :: bs' => be_word bs' (Z.lor (Z.shiftl acc 8) b)
  end.

(** The message, a 1 bit, zeros up to 56 modulo 64 bytes, the bit length. *)
Definition pad (msg : list Z) : list Z :=
  let len := Z.of_nat (length msg) in
  msg ++ [0x80] ++ replicate (Z.to_nat ((55 - len) mod 64)) 0 ++ be_bytes 8 (8 * len).

(** Consecutive groups of [n] bytes. *)
Fixpoint chunks (fuel n : nat) (bs : list Z) : list (list Z) :=
  match fuel, bs with
  | O, _ | _, [] => []
  | S fuel', _ => take n bs :: chunks fuel' n (drop n bs)
  end.

(** [n] more words of the message schedule; the newest word comes first. *)
Fixpoint schedule (n : nat) (ws : list Z) : list Z :=
  match n with
  | O => ws
  | S n' =>
      let w := add32 (add32 (sigma1 (nth 1 ws 0)) (nth 6 ws 0))
                     (add32 (sigma0 (nth 14 ws 0)) (nth 15 ws 0)) in
      schedule n' (w :: ws)
  end.

Definition round (st : list Z) (kw : Z * Z) : list Z :=
  match st with
  | [a; b; c; d; e; f; g; h] =>
      let t1 := add32 (add32 (add32 h (Sigma1 e)) (add32 (Ch e f g) (fst kw))) (snd kw) in
      let t2 := add32 (Sigma0 a) (Maj a b c) in
      [add32 t1 t2; a; b; c; add32 d t1; e; f; g]
  | _ => st
  end.

Definition compress (h : list Z) (block : list Z) : list Z :=
  let w16 := map (fun bs => be_word bs 0) (chunks 16 4 block) in
  let w := rev (schedule 48 (rev w16)) in
  zip_with add32 h (fold_left round (combine K w) h).

Definition digest (msg : list Z) : list Z :=
  let p := pad msg in
  concat (map (be_bytes 4) (fold_left compress (chunks (length p) 64 p) H0)).

Definition hex_digit (d : Z) : ascii := chr (if d <? 10 then 48 + d else 87 + d).

Definition hex_byte (b : Z) (k : string) : string :=
  String (hex_digit (Z.shiftr b 4)) (String (hex_digit (Z.land b 0xF)) k).

(** [hashlib.sha256(msg).hexdigest()]. *)
Definition hexdigest (msg : list Z) : string :=
  fold_right hex_byte EmptyString (digest msg).

End SHA256.

(** ** [float]: binary64, with [repr] and the division of two [int]s *)

Module Float64.

(** The number [num * 2^e2 * 10^e10]. *)
Record scaled := Scaled { num : Z; e2 : Z; e10 : Z }.

Definition pos_part (x : Z) : Z := Z.max x 0.

Definition scaled_cmp (a b : scaled) : comparison :=
  let l := num a * 2 ^ pos_part (e2 a - e2 b) * 10 ^ pos_part (e10 a - e10 b) in
  let r := num b * 2 ^ pos_part (e2 b - e2 a) * 10 ^ pos_part (e10 b - e10 a) in
  l ?= r.

Definition scaled_floor (a : scaled) : Z :=
  (num a * 2 ^ pos_part (e2 a) * 10 ^ pos_part (e10 a))
    / (2 ^ pos_part (- e2 a) * 10 ^ pos_part (- e10 a)).

Fixpoint count_digits (fuel : nat) (x : Z) : Z :=
  match fuel with
  | O => 0
  | S fuel' => if x <? 10 then 1 else 1 + count_digits fuel' (x / 10)
  end.

(** The least [j >= 0] with [v * 10^j >= 1], for [0 < v < 1]. *)
Fixpoint lift_to_one (fuel : nat) (v : scaled) (j : Z) : Z :=
  match fuel with
  | O => j
  | S fuel' =>
      match scaled_cmp (Scaled (num v) (e2 v) j) (Scaled 1 0 0) with
      | Lt => lift_to_one fuel' v (j + 1)
      | _ => j
      end
  end.

(** The [n] with [10^(n-1) <= v < 10^n]. *)
Definition decimal_exponent (v : scaled) : Z :=
  let f := scaled_floor v in
  if 1 <=? f then count_digits 400 f else 1 - lift_to_one 400 v 0.

(** [c] lies between the two neighbouring midpoints, so it reads back as the
    float between them; the midpoints count when the mantissa is even. *)
Definition in_interval (closed : bool) (lo hi c : scaled) : bool :=
  match scaled_cmp lo c, scaled_cmp c hi with
  | Lt, Lt => true
  | Eq, (Lt | Eq) | Lt, Eq => closed
  | _, _ => false
  end.

Fixpoint strip_zeros (fuel : nat) (d q : Z) : Z * Z :=
  match fuel with
  | O => (d, q)
  | S fuel' =>
      if (d mod 10 =? 0) && (0 <? d) then strip_zeros fuel' (d / 10) (q + 1) else (d, q)
  end.

(** The decimal [d * 10^q] of [k] or more digits that reads back as
    [m * 2^e]: the shortest one, and the nearest among the shortest. *)
Fixpoint shortest_from (fuel : nat) (k : Z) (m e n : Z) : Z * Z :=
  let lo := if (m =? 2 ^ 52) && (-1074 <? e) then Scaled (4 * m - 1) (e - 2) 0
            else Scaled (4 * m - 2) (e - 2) 0 in
  let hi := Scaled (4 * m + 2) (e - 2) 0 in
  let q := n - k in
  let dlo := scaled_floor (Scaled m e (- q)) in
  let dhi := dlo + 1 in
  let oklo := in_interval (Z.even m) lo hi (Scaled dlo 0 q) in
  let okhi := in_interval (Z.even m) lo hi (Scaled dhi 0 q) in
  match fuel with
  | O => (dlo, q)
  | S fuel' =>
      match oklo, okhi with
      | true, true =>
          match scaled_cmp (Scaled (2 * m) e 0) (Scaled (2 * dlo + 1) 0 q) with
          | Lt => (dlo, q)
          | Gt => (dhi, q)
          | Eq => if Z.even dlo then (dlo, q) else (dhi, q)
          end
      | true, false => (dlo, q)
      | false, true => (dhi, q)
      | false, false => shortest_from fuel' (k + 1) m e n
      end
  end.

Definition shortest_digits (m e : Z) : Z * Z :=
  let '(d, q) := shortest_from 17 1 m e (decimal_exponent (Scaled m e 0)) in
  strip_zeros 20 d q.

Definition zeros (n : Z) : string := str_mul "0" n.

Definition str_len (s : string) : Z := Z.of_nat (String.length s).

(** The digits [d] and the exponent [q] laid out as [repr] does: plain when
    the decimal point falls within [-4 < decpt <= 16], with an exponent of two
    digits or more otherwise. *)
Definition format_short (d q : Z) : string :=
  let ds := str_of_int d in
  let len := str_len ds in
  let decpt := len + q in
  if (-4 <? decpt) && (decpt <=? 16) then
    if decpt <=? 0 then "0." +:+ zeros (- decpt) +:+ ds
    else if len <=? decpt then ds +:+ zeros (decpt - len) +:+ ".0"
    else substring 0 (Z.to_nat decpt) ds +:+ "."
           +:+ substring (Z.to_nat decpt) (Z.to_nat (len - decpt)) ds
  else
    let ex := decpt - 1 in
    let frac := if 1 <? len then "." +:+ substring 1 (Z.to_nat (len - 1)) ds
                else EmptyString in
    let sgn := if ex <? 0 then "-" else "+" in
    let pad := if Z.abs ex <? 10 then "0" else EmptyString in
    substring 0 1 ds +:+ frac +:+ "e" +:+ sgn +:+ pad +:+ str_of_int (Z.abs ex).

(** [repr(x)]. *)
Definition repr (x : float) : string :=
  match Prim2SF x with
  | S754_nan => "nan"
  | S754_infinity false => "inf"
  | S754_infinity true => "-inf"
  | S754_zero false => "0.0"
  | S754_zero true => "-0.0"
  | S754_finite s m e =>
      let '(d, q) := shortest_digits (Zpos m) e in
      (if s then "-" else EmptyString) +:+ format_short d q
  end.

Definition of_int_exact (z : Z) : spec_float :=
  match z with
  | 0 => S754_zero false
  | Zpos p => S754_finite false p 0
  | Zneg p => S754_finite true p 0
  end.

(** The quotient [a / b] of two [int]s, [b] not zero, rounded to the nearest
    float; [None] when it is too large for one. *)
Definition div_int (a b : Z) : option float :=
  match SFdiv prec emax (of_int_exact a) (of_int_exact b) with
  | S754_infinity _ => None
  | r => Some (SF2Prim r)
  end.

End Float64.

(** ** The values [json.dumps] serialises

    A [dict] is the list of its items in insertion order, its keys being
    [str] and distinct. *)

#[local] Set Warnings "-register-all".
Inductive pyval : Type :=
| PyNone
| PyBool (b : bool)
| PyInt (n : Z)
| PyFloat (x : float)
| PyStr (s : string)
| PyList (items : list pyval)
| PyTuple (items : list pyval)
| PyDict (items : list (string * pyval)).

(** ** [json.dumps(obj, sort_keys=True, separators=(',', ':'))] *)

Module Json.

Definition quote : string := String "034" EmptyString.
Definition backslash : string := String "092" EmptyString.

(** [ensure_ascii] is on: what is not printable ASCII is escaped. *)
Definition escape_char (c : ascii) : string :=
  let n := ord c in
  if n =? 34 then backslash +:+ quote
  else if n =? 92 then backslash +:+ backslash
  else if n =? 8 then backslash +:+ "b"
  else if n =? 12 then backslash +:+ "f"
  else if n =? 10 then backslash +:+ "n"
  else if n =? 13 then backslash +:+ "r"
  else if n =? 9 then backslash +:+ "t"
  else if (0x20 <=? n) && (n <=? 0x7E) then String c EmptyString
  else backslash +:+ "u00" +:+ SHA256.hex_byte n EmptyString.

Definition encode_basestring_ascii (s : string) : string :=
  quote +:+ String.concat EmptyString (map escape_char (list_ascii_of_string s)) +:+ quote.

Definition floatstr (x : float) : string :=
  match Prim2SF x with
  | S754_nan => "NaN"
  | S754_infinity false => "Infinity"
  | S754_infinity true => "-Infinity"
  | _ => Float64.repr x
  end.

(** [sorted(items)], by key. *)
Fixpoint insert_item (kv : string * string) (l : list (string * string))
  : list (string * string) :=
  match l with
  | [] => [kv]
  | kv' :: l' =>
      if String.ltb (fst kv') (fst kv) then kv' :: insert_item kv l' else kv :: l
  end.

Definition sort_items (l : list (string * string)) : list (string * string) :=
  fold_right insert_item [] l.

Definition dumps_item (kv : string * string) : string :=
  encode_basestring_ascii (fst kv) +:+ ":" +:+ snd kv.

Fixpoint dumps (obj : pyval) : string :=
  match obj with
  | PyNone => "null"
  | PyBool true => "true"
  | PyBool false => "false"
  | PyInt n => str_of_int n
  | PyFloat x => floatstr x
  | PyStr s => encode_basestring_ascii s
  | PyList items | PyTuple items =>
      "[" +:+ String.concat "," (map dumps items) +:+ "]"
  | PyDict items =>
      let dumped := map (fun kv => (fst kv, dumps (snd kv))) items in
      "{" +:+ String.concat "," (map dumps_item (sort_items dumped)) +:+ "}"
  end.

End Json.

(** ** class Block *)

Record Block : Type := mkBlock {
  index : Z;
  timestamp : float;
  data : pyval;
  previous_hash : string;
  nonce : Z;
  hash : string
}.

Definition set_data (b : Block) (v : pyval) : Block :=
  mkBlock (index b) (timestamp b) v (previous_hash b) (nonce b) (hash b).
Definition set_nonce (b : Block) (n : Z) : Block :=
  mkBlock (index b) (timestamp b) (data b) (previous_hash b) n (hash b).
Definition set_hash (b : Block) (h : string) : Block :=
  mkBlock (index b) (timestamp b) (data b) (previous_hash b) (nonce b) h.

(** The text [compute_hash] digests. *)
Definition block_string (self : Block) : string :=
  Json.dumps (PyDict [("index", PyInt (index self));
                      ("timestamp", PyFloat (timestamp self));
                      ("data", data self);
                      ("previous_hash", PyStr (previous_hash self));
                      ("nonce", PyInt (nonce self))]).

Definition compute_hash (self : Block) : string :=
  SHA256.hexdigest (encode (block_string self)).

(** [Block(index, timestamp, data, previous_hash, nonce)]. *)
Definition Block_init (index : Z) (timestamp : float) (data : pyval)
    (previous_hash : string) (nonce : Z) : Block :=
  let self := mkBlock index timestamp data previous_hash nonce EmptyString in
  set_hash self (compute_hash self).

(** ** The monad of methods

    The state is the attributes of a [Blockchain] and the wall clock:
    [clock k] is what the [k]-th call of [time.time()] returns, [ticks]
    counts the calls made so far. A computation returns a value, raises an
    exception, or is still running when its rounds are used up. *)

Inductive exn : Type :=
| IndexError (msg : string)
| ZeroDivisionError (msg : string)
| OverflowError (msg : string).

Record World : Type := mkWorld {
  chain : list Block;
  difficulty : Z;
  clock : nat -> float;
  ticks : nat
}.

Inductive outcome (A : Type) : Type :=
| Returns (a : A) (w : World)
| Raises (e : exn) (w : World)
| Diverges.
Arguments Returns {A} a w.
Arguments Raises {A} e w.
Arguments Diverges {A}.

Definition M (A : Type) : Type := World -> outcome A.

Definition ret {A} (a : A) : M A := fun w => Returns a w.
Definition raise {A} (e : exn) : M A := fun w => Raises e w.
Definition diverge {A} : M A := fun _ => Diverges.
Definition bind {A B} (c : M A) (k : A -> M B) : M B :=
  fun w =>
    match c w with
    | Returns a w' => k a w'
    | Raises e w' => Raises e w'
    | Diverges => Diverges
    end.

Notation "x <- c ;; k" := (bind c (fun x => k))
  (at level 100, c at next level, right associativity).

Definition with_chain (w : World) (c : list Block) : World :=
  mkWorld c (difficulty w) (clock w) (ticks w).
Definition with_difficulty (w : World) (d : Z) : World :=
  mkWorld (chain w) d (clock w) (ticks w).
Definition tick (w : World) : World :=
  mkWorld (chain w) (difficulty w) (clock w) (S (ticks w)).

Definition get_chain : M (list Block) := fun w => Returns (chain w) w.
Definition get_difficulty : M Z := fun w => Returns (difficulty w) w.
Definition set_chain (c : list Block) : M unit := fun w => Returns tt (with_chain w c).
Definition set_difficulty (d : Z) : M unit := fun w => Returns tt (with_difficulty w d).

(** [time.time()]. *)
Definition time_time : M float := fun w => Returns (clock w (ticks w)) (tick w).

(** ** Python lists *)

Definition len {A} (l : list A) : Z := Z.of_nat (length l).

(** Where the subscript [i] points to in [l], if anywhere. *)
Definition position {A} (l : list A) (i : Z) : option nat :=
  let j := if i <? 0 then i + len l else i in
  if (0 <=? j) && (j <? len l) then Some (Z.to_nat j) else None.

(** [l[i]]. *)
Definition getitem {A} (l : list A) (i : Z) : M A :=
  match position l i with
  | Some k =>
      match l !! k with
      | Some x => ret x
      | None => raise (IndexError "list index out of range")
      end
  | None => raise (IndexError "list index out of range")
  end.

(** [range(start, stop)]. *)
Definition range (start stop : Z) : list Z := seqZ start (stop - start).

(** [sum(l)]. *)
Definition sum (l : list Z) : Z := fold_left Z.add l 0.

(** [a / b] on two [int]s. *)
Definition truediv (a b : Z) : M float :=
  if b =? 0 then raise (ZeroDivisionError "division by zero")
  else match Float64.div_int a b with
       | Some x => ret x
       | None => raise (OverflowError "integer division result too large for a float")
       end.

(** ** class Blockchain *)

(** [self.chain.append(b)]. *)
Definition chain_append (b : Block) : M unit :=
  c <- get_chain ;; set_chain (c ++ [b]).

(** [self.chain[i].data = v]: the block the subscript points to is changed
    in place. *)
Definition chain_setitem_data (i : Z) (v : pyval) : M unit :=
  c <- get_chain ;;
  b <- getitem c i ;;
  match position c i with
  | Some k => set_chain (<[k := set_data b v]> c)
  | None => ret tt
  end.

Definition last_block : M Block :=
  c <- get_chain ;; getitem c (-1).

(** The [while True] of [proof_of_work]: at most [fuel] rounds of it. *)
Fixpoint proof_of_work_loop (fuel : nat) (target : string) (start : float)
    (block : Block) : M (Block * (string * Z * float)) :=
  match fuel with
  | O => diverge
  | S fuel' =>
      let block := set_hash block (compute_hash block) in
      if startswith (hash block) target then
        end_ <- time_time ;;
        ret (block, (hash block, nonce block, PrimFloat.sub end_ start))
      else
        proof_of_work_loop fuel' target start (set_nonce block (nonce block + 1))
  end.

(** Returns the block as the search leaves it, and the tuple the method
    returns. *)
Definition proof_of_work (fuel : nat) (block : Block)
  : M (Block * (string * Z * float)) :=
  d <- get_difficulty ;;
  let target := str_mul "0" d in
  start <- time_time ;;
  proof_of_work_loop fuel target start block.

Definition create_genesis_block (fuel : nat) : M unit :=
  t <- time_time ;;
  let genesis := Block_init 0 t (PyStr "Genesis Block") "0" 0 in
  r <- proof_of_work fuel genesis ;;
  let genesis := set_hash (fst r) (fst (fst (snd r))) in
  chain_append genesis.

(** [Blockchain(difficulty)]. *)
Definition Blockchain_init (fuel : nat) (difficulty : Z) : M unit :=
  _ <- set_chain [] ;;
  _ <- set_difficulty difficulty ;;
  create_genesis_block fuel.

Definition add_block (fuel : nat) (data : pyval) : M pyval :=
  last <- last_block ;;
  let new_index := index last + 1 in
  t <- time_time ;;
  last' <- last_block ;;
  let new_block := Block_init new_index t data (hash last') 0 in
  r <- proof_of_work fuel new_block ;;
  let '(new_block, (mined_hash, nonce_used, time_taken)) := r in
  let new_block := set_hash new_block mined_hash in
  _ <- chain_append new_block ;;
  ret (PyDict [("index", PyInt (index new_block));
               ("hash", PyStr (hash new_block));
               ("nonce", PyInt (nonce new_block));
               ("time_taken_sec", PyFloat time_taken)]).

(** The body of the [for] of [is_chain_valid], over the indices left. *)
Fixpoint is_chain_valid_loop (target : string) (indices : list Z)
  : M (bool * string) :=
  match indices with
  | [] => ret (true, "Chain is valid.")
  | i :: indices' =>
      c <- get_chain ;;
      current <- getitem c i ;;
      previous <- getitem c (i - 1) ;;
      if negb (String.eqb (previous_hash current) (hash previous)) then
        ret (false, "Block " +:+ str_of_int (index current) +:+ " previous_hash mismatch.")
      else if negb (String.eqb (compute_hash current) (hash current)) then
        ret (false, "Block " +:+ str_of_int (index current) +:+ " hash mismatch.")
      else if negb (startswith (hash current) target) then
        ret (false, "Block " +:+ str_of_int (index current) +:+ " does not meet difficulty.")
      else is_chain_valid_loop target indices'
  end.

Definition is_chain_valid : M (bool * string) :=
  d <- get_difficulty ;;
  let target := str_mul "0" d in
  c <- get_chain ;;
  is_chain_valid_loop target (range 1 (len c)).

Definition tamper_with_block (index : Z) (new_data : pyval) : M unit :=
  c <- get_chain ;;
  if (index <=? 0) || (len c <=? index) then
    raise (IndexError "Invalid block index to tamper with.")
  else chain_setitem_data index new_data.

Definition average_nonce : M float :=
  c <- get_chain ;;
  if len c <=? 1 then ret 0%float
  else
    let total_nonce := sum (map nonce (drop 1 c)) in
    c' <- get_chain ;;
    truediv total_nonce (len c' - 1).

(** ** Notions the properties are stated with *)

(** The prefix a digest must have. *)
Definition target (w : World) : string := str_mul "0" (difficulty w).

(** How many ['0'] characters a string starts with. *)
Fixpoint leading_zeros (s : string) : nat :=
  match s with
  | String c s' => if Ascii.eqb c "0" then S (leading_zeros s') else O
  | EmptyString => O
  end.

(** The three checks [is_chain_valid] makes on a block, in its order. *)
Inductive check : Type := PreviousHash | HashMatch | MeetsDifficulty.

Definition passes (tgt : string) (previous current : Block) (k : check) : Prop :=
  match k with
  | PreviousHash => previous_hash current = hash previous
  | HashMatch => compute_hash current = hash current
  | MeetsDifficulty => startswith (hash current) tgt = true
  end.

Definition before (k' k : check) : Prop :=
  match k', k with
  | PreviousHash, (HashMatch | MeetsDifficulty) | HashMatch, MeetsDifficulty => True
  | _, _ => False
  end.

Definition complaint (k : check) : string :=
  match k with
  | PreviousHash => " previous_hash mismatch."
  | HashMatch => " hash mismatch."
  | MeetsDifficulty => " does not meet difficulty."
  end.

Definition success : bool * string := (true, "Chain is valid.").
Definition failure (n : Z) (k : check) : bool * string :=
  (false, "Block " +:+ str_of_int n +:+ complaint k).

(** Every block of [c] behind the first passes the three checks against the
    block before it. *)
Definition linked (tgt : string) (c : list Block) : Prop :=
  forall (i : nat) (p b : Block),
    c !! i = Some p -> c !! S i = Some b -> forall k, passes tgt p b k.

(** Every block of [c] carries its position as its index. *)
Definition indexed (c : list Block) : Prop :=
  forall (i : nat) (b : Block), c !! i = Some b -> index b = Z.of_nat i.

(** The walk of [is_chain_valid] read off the list itself: [blocks] are the
    blocks still to check, [prev_hash] the stored digest of the block before
    them. *)
Fixpoint validate_from (tgt prev_hash : string) (blocks : list Block)
  : bool * string :=
  match blocks with
  | [] => success
  | current :: blocks' =>
      if negb (String.eqb (previous_hash current) prev_hash) then
        failure (index current) PreviousHash
      else if negb (String.eqb (compute_hash current) (hash current)) then
        failure (index current) HashMatch
      else if negb (startswith (hash current) tgt) then
        failure (index current) MeetsDifficulty
      else validate_from tgt (hash current) blocks'
  end.

(** The block as mining leaves it when it stops at the nonce [n]. *)
Definition mined (block : Block) (n : Z) : Block :=
  set_hash (set_nonce block n) (compute_hash (set_nonce block n)).

(** What [add_block] returns for the block [b] mined in [time_taken]. *)
Definition summary (b : Block) (time_taken : float) : pyval :=
  PyDict [("index", PyInt (index b));
          ("hash", PyStr (hash b));
          ("nonce", PyInt (nonce b));
          ("time_taken_sec", PyFloat time_taken)].

(** The block [add_block data] starts mining from. *)
Definition candidate (w : World) (last : Block) (data : pyval) : Block :=
  Block_init (index last + 1) (clock w (ticks w)) data (hash last) 0.

(** The worlds a program gets by [Blockchain(difficulty)], with a
    difficulty that is not negative, and then [add_block] only. *)
Inductive built : World -> Prop :=
| built_init fuel d w0 w :
    0 <= d -> Blockchain_init fuel d w0 = Returns tt w -> built w
| built_add_block fuel v w r w' :
    built w -> add_block fuel v w = Returns r w' -> built w'.

(** The worlds a program gets through the three methods that change a chain. *)
Inductive reachable : World -> Prop :=
| reach_init fuel d w0 w :
    Blockchain_init fuel d w0 = Returns tt w -> reachable w
| reach_add_block fuel v w r w' :
    reachable w -> add_block fuel v w = Returns r w' -> reachable w'
| reach_tamper i v w w' :
    reachable w -> tamper_with_block i v w = Returns tt w' -> reachable w'.

(** Two payloads have the same content when they are equal, or differ only
    in the order in which the items of their dicts were inserted, at any
    depth. The keys of a dict are distinct. *)
Inductive same_content : pyval -> pyval -> Prop :=
| same_refl (v : pyval) : same_content v v
| same_list (l l' : list pyval) :
    same_each l l' -> same_content (PyList l) (PyList l')
| same_tuple (l l' : list pyval) :
    same_each l l' -> same_content (PyTuple l) (PyTuple l')
| same_dict (d d1 d' : list (string * pyval)) :
    NoDup (map fst d) -> Permutation d d1 -> same_items d1 d' ->
    same_content (PyDict d) (PyDict d')
with same_each : list pyval -> list pyval -> Prop :=
| same_each_nil : same_each [] []
| same_each_cons (v v' : pyval) (l l' : list pyval) :
    same_content v v' -> same_each l l' -> same_each (v :: l) (v' :: l')
with same_items : list (string * pyval) -> list (string * pyval) -> Prop :=
| same_items_nil : same_items [] []
| same_items_cons (k : string) (v v' : pyval) (d d' : list (string * pyval)) :
    same_content v v' -> same_items d d' -> same_items ((k, v) :: d) ((k, v') :: d').

Scheme same_content_mut := Minimality for same_content Sort Prop
  with same_each_mut := Minimality for same_each Sort Prop
  with same_items_mut := Minimality for same_items Sort Prop.
Combined Scheme same_content_mutind
  from same_content_mut, same_each_mut, same_items_mut.


(** ** A session to run the model on

    The clock shows 1700000000.25 at first and half a second more at each
    reading. *)

Definition demo_clock (k : nat) : float :=
  (1700000000.25 + 0.5 * PrimFloat.of_uint63 (Uint63.of_Z (Z.of_nat k)))%float.

Definition fresh : World := mkWorld [] 0 demo_clock 0.

Definition world_of {A} (o : outcome A) : World :=
  match o with
  | Returns _ w | Raises _ w => w
  | Diverges => fresh
  end.

Definition result_of (o : outcome pyval) : pyval :=
  match o with
  | Returns r _ => r
  | _ => PyNone
  end.

Definition transfer : pyval := PyList [PyStr "alice"; PyStr "bob"; PyInt 5].
Definition transfer' : pyval := PyTuple [PyStr "alice"; PyStr "bob"; PyInt 5].

(** [Blockchain(1)], then two blocks added. *)
Definition demo0 : World := world_of (Blockchain_init 64 1 fresh).
Definition demo1 : World := world_of (add_block 64 transfer demo0).
Definition demo2 : World := world_of (add_block 64 (PyStr "Second transaction") demo1).

(** A genesis block that is wrong in every field but the stored digest, which
    is the one of the genesis block of [demo2], and the chain of [demo2] with
    it in front. *)
Definition forged_genesis : Block :=
  mkBlock 7 0.5 (PyStr "forged") "ff" 99
    "03725d131f81606b142f822b2f457b3ec169fc5aacd9b430d037f0da166ddffe".
Definition demo2_forged : World :=
  with_chain demo2 (forged_genesis :: drop 1 (chain demo2)).

(** The block the constructor starts mining from in that session, and the
    world it does so in. *)
Definition demo_genesis : Block :=
  Block_init 0 (demo_clock 0) (PyStr "Genesis Block") "0" 0.
Definition demo_mining : World := mkWorld [] 1 demo_clock 1.

(** The chain of [demo2] after [tamper_with_block(1, transfer')]: the payload
    of block 1, a list, is replaced by the tuple of the same items. *)
Definition demo2_tampered : World := world_of (tamper_with_block 1 transfer' demo2).

(** The chain of [demo2] after [tamper_with_block(1, "Hacked data")], and
    that chain with a block added. *)
Definition demo2_hacked : World :=
  world_of (tamper_with_block 1 (PyStr "Hacked data") demo2).
Definition demo3_hacked : World :=
  world_of (add_block 64 (PyStr "Third transaction") demo2_hacked).


(** * Properties *)

(** ** Strings and digests *)

Lemma str_mul_zero_succ (n : nat) :
  str_mul "0" (Z.of_nat (S n)) = String "0" (str_mul "0" (Z.of_nat n)).
Proof.
  unfold str_mul. rewrite !Nat2Z.id.
  destruct n as [|n]; [reflexivity|].
  change (replicate (S (S n)) "0"%string)
    with ("0"%string :: replicate (S n) "0"%string).
  change (replicate (S n) "0"%string) with ("0"%string :: replicate n "0"%string).
  reflexivity.
Qed.

Lemma prefix_cons (a b : ascii) (s1 s2 : string) :
  String.prefix (String a s1) (String b s2)
  = if Ascii.eqb b a then String.prefix s1 s2 else false.
Proof.
  change (String.prefix (String a s1) (String b s2))
    with (match ascii_dec a b with
          | left _ => String.prefix s1 s2
          | right _ => false
          end).
  destruct (ascii_dec a b); destruct (Ascii.eqb_spec b a); congruence.
Qed.

Lemma startswith_zeros (s : string) (n : nat) :
  startswith s (str_mul "0" (Z.of_nat n)) = true <-> (n <= leading_zeros s)%nat.
Proof.
  revert s. induction n as [|n IH]; intros s.
  - unfold startswith. change (str_mul "0" (Z.of_nat 0)) with EmptyString.
    destruct s; simpl; split; intros; auto with lia.
  - rewrite str_mul_zero_succ. unfold startswith in *.
    destruct s as [|c s].
    + simpl. split; [intros; discriminate | lia].
    + rewrite prefix_cons. cbn [leading_zeros].
      destruct (Ascii.eqb c "0").
      * rewrite IH. lia.
      * split; [intros; discriminate | lia].
Qed.

(** A digest has the prefix of difficulty [d] when it starts with [d] zeros
    or more. *)
Lemma startswith_target (s : string) (d : Z) :
  startswith s (str_mul "0" d) = true <-> (Z.to_nat d <= leading_zeros s)%nat.
Proof.
  rewrite <- startswith_zeros. unfold str_mul. rewrite Nat2Z.id. reflexivity.
Qed.

(** [compute_hash] reads the five fields it serialises and nothing else. *)
Lemma compute_hash_congr (b1 b2 : Block) :
  index b1 = index b2 ->
  timestamp b1 = timestamp b2 ->
  data b1 = data b2 ->
  previous_hash b1 = previous_hash b2 ->
  nonce b1 = nonce b2 ->
  compute_hash b1 = compute_hash b2.
Proof.
  intros Hi Ht Hd Hp Hn. unfold compute_hash, block_string.
  rewrite Hi, Ht, Hd, Hp, Hn. reflexivity.
Qed.

Lemma compute_hash_set_hash (b : Block) (h : string) :
  compute_hash (set_hash b h) = compute_hash b.
Proof. apply compute_hash_congr; reflexivity. Qed.

Lemma set_nonce_same (b : Block) : set_nonce b (nonce b) = b.
Proof. destruct b; reflexivity. Qed.

Lemma set_hash_same (b : Block) : set_hash b (hash b) = b.
Proof. destruct b; reflexivity. Qed.

(** ** Outcomes *)

Lemma Returns_inj {A} (a a' : A) (w w' : World) :
  Returns a w = Returns a' w' -> a = a' /\ w = w'.
Proof. intros H. injection H as -> ->. split; reflexivity. Qed.

(** ** Subscripts *)

Lemma len_app {A} (l1 l2 : list A) : len (l1 ++ l2) = len l1 + len l2.
Proof. unfold len. rewrite length_app. lia. Qed.

Lemma position_in_range {A} (l : list A) (i : Z) :
  0 <= i < len l -> position l i = Some (Z.to_nat i).
Proof.
  intros H. unfold position.
  destruct (Z.ltb_spec i 0); [lia|].
  destruct (Z.leb_spec 0 i); [|lia].
  destruct (Z.ltb_spec i (len l)); [reflexivity | lia].
Qed.

Lemma position_out_of_range {A} (l : list A) (i : Z) :
  len l <= i -> position l i = None.
Proof.
  intros H. unfold position. unfold len in *.
  destruct (Z.ltb_spec i 0); [lia|].
  destruct (Z.leb_spec 0 i); [|lia].
  destruct (Z.ltb_spec i (Z.of_nat (length l))); [lia | reflexivity].
Qed.

Lemma getitem_lookup {A} (l : list A) (i : Z) (x : A) (w : World) :
  0 <= i -> l !! Z.to_nat i = Some x -> getitem l i w = Returns x w.
Proof.
  intros Hi Hx. unfold getitem.
  rewrite position_in_range.
  - rewrite Hx. reflexivity.
  - apply lookup_lt_Some in Hx. unfold len. lia.
Qed.

Lemma getitem_last {A} (l : list A) (x : A) (w : World) :
  last l = Some x -> getitem l (-1) w = Returns x w.
Proof.
  intros Hl. unfold getitem, position.
  assert (Hlen : (0 < length l)%nat).
  { destruct l; [discriminate | simpl; lia]. }
  change (-1 <? 0) with true. cbv iota.
  unfold len.
  destruct (Z.leb_spec 0 (-1 + Z.of_nat (length l))); [|lia].
  destruct (Z.ltb_spec (-1 + Z.of_nat (length l)) (Z.of_nat (length l))); [|lia].
  simpl. rewrite last_lookup in Hl.
  replace (Z.to_nat (-1 + Z.of_nat (length l))) with (pred (length l)) by lia.
  rewrite Hl. reflexivity.
Qed.

Lemma last_block_returns (w : World) (b : Block) :
  last (chain w) = Some b -> last_block w = Returns b w.
Proof. intros H. unfold last_block, bind, get_chain. apply getitem_last, H. Qed.

Lemma range_nil (a b : Z) : b <= a -> range a b = [].
Proof. intros H. unfold range. apply seqZ_nil. lia. Qed.

Lemma range_cons (a b : Z) : a < b -> range a b = a :: range (a + 1) b.
Proof.
  intros H. unfold range. rewrite seqZ_cons by lia.
  f_equal. f_equal; lia.
Qed.

(** ** Validation *)

(** The loop of [is_chain_valid], started behind the block [prev], walks the
    blocks that follow it. *)
Lemma is_chain_valid_loop_walk (tgt : string) (rest pre : list Block)
    (prev : Block) (w : World) :
  chain w = pre ++ prev :: rest ->
  is_chain_valid_loop tgt (range (len pre + 1) (len (chain w))) w
  = Returns (validate_from tgt (hash prev) rest) w.
Proof.
  revert pre prev. induction rest as [|cur rest IH]; intros pre prev Hc.
  - rewrite range_nil; [reflexivity|].
    rewrite Hc, len_app. unfold len. simpl. lia.
  - rewrite range_cons by (rewrite Hc, len_app; unfold len; simpl; lia).
    cbn [is_chain_valid_loop]. unfold bind, get_chain.
    rewrite (getitem_lookup (chain w) (len pre + 1) cur).
    2: unfold len; lia.
    2: { rewrite Hc. replace (Z.to_nat (len pre + 1)) with (length (pre ++ [prev])).
         - change (pre ++ prev :: cur :: rest) with (pre ++ [prev] ++ cur :: rest).
           rewrite (app_assoc pre [prev] (cur :: rest)).
           apply (list_lookup_middle (pre ++ [prev]) rest cur). reflexivity.
         - rewrite length_app. unfold len. simpl. lia. }
    rewrite (getitem_lookup (chain w) (len pre + 1 - 1) prev).
    2: unfold len; lia.
    2: { rewrite Hc. apply list_lookup_middle. unfold len. lia. }
    cbn [validate_from].
    destruct (negb (String.eqb (previous_hash cur) (hash prev))); [reflexivity|].
    destruct (negb (String.eqb (compute_hash cur) (hash cur))); [reflexivity|].
    destruct (negb (startswith (hash cur) tgt)); [reflexivity|].
    specialize (IH (pre ++ [prev]) cur).
    rewrite len_app in IH. change (len [prev]) with 1 in IH.
    apply IH. rewrite Hc, <- app_assoc. reflexivity.
Qed.

(** [is_chain_valid] always returns, leaves the world as it was, and its
    result is the walk over the blocks behind the first. *)
Lemma is_chain_valid_walk (w : World) (g : Block) (rest : list Block) :
  chain w = g :: rest ->
  is_chain_valid w = Returns (validate_from (target w) (hash g) rest) w.
Proof.
  intros Hc. unfold is_chain_valid, bind, get_difficulty, get_chain.
  apply (is_chain_valid_loop_walk (target w) rest [] g w Hc).
Qed.

Lemma is_chain_valid_empty (w : World) :
  chain w = [] -> is_chain_valid w = Returns success w.
Proof.
  intros Hc. unfold is_chain_valid, bind, get_difficulty, get_chain.
  rewrite Hc. reflexivity.
Qed.

(** What a walk that succeeds has checked, and where a walk that fails
    stopped. *)
Lemma validate_from_success (tgt : string) (rest : list Block) (prev : Block) :
  validate_from tgt (hash prev) rest = success <->
  forall (i : nat) (p c : Block),
    (prev :: rest) !! i = Some p -> (prev :: rest) !! S i = Some c ->
    forall k, passes tgt p c k.
Proof.
  revert prev. induction rest as [|cur rest IH]; intros prev.
  - split; [|reflexivity]. intros _ i p c _ Hc.
    destruct i; discriminate.
  - cbn [validate_from].
    destruct (String.eqb_spec (previous_hash cur) (hash prev)) as [E1|E1]; cbn [negb].
    2: { split; [discriminate|]. intros H. exfalso. apply E1.
         apply (H 0%nat prev cur eq_refl eq_refl PreviousHash). }
    destruct (String.eqb_spec (compute_hash cur) (hash cur)) as [E2|E2]; cbn [negb].
    2: { split; [discriminate|]. intros H. exfalso. apply E2.
         apply (H 0%nat prev cur eq_refl eq_refl HashMatch). }
    destruct (startswith (hash cur) tgt) eqn:E3; cbn [negb].
    2: { split; [discriminate|]. intros H.
         pose proof (H 0%nat prev cur eq_refl eq_refl MeetsDifficulty) as H3.
         simpl in H3. congruence. }
    rewrite IH. split.
    + intros H [|i] p c Hp Hc k.
      * injection Hp as <-. injection Hc as <-. destruct k; assumption.
      * apply (H i p c Hp Hc).
    + intros H i p c Hp Hc k. apply (H (S i) p c Hp Hc).
Qed.

Lemma validate_from_failure (tgt : string) (rest : list Block) (prev : Block)
    (msg : string) :
  validate_from tgt (hash prev) rest = (false, msg) ->
  exists (i : nat) (p c : Block) (k : check),
    (prev :: rest) !! i = Some p /\ (prev :: rest) !! S i = Some c /\
    (false, msg) = failure (index c) k /\
    ~ passes tgt p c k /\
    (forall k', before k' k -> passes tgt p c k') /\
    (forall (j : nat) (p' c' : Block), (j < i)%nat ->
       (prev :: rest) !! j = Some p' -> (prev :: rest) !! S j = Some c' ->
       forall k', passes tgt p' c' k').
Proof.
  revert prev. induction rest as [|cur rest IH]; intros prev; [discriminate|].
  cbn [validate_from].
  destruct (String.eqb_spec (previous_hash cur) (hash prev)) as [E1|E1]; cbn [negb].
  2: { intros H. exists 0%nat, prev, cur, PreviousHash.
       repeat split; auto; try (intros []; contradiction); intros; lia. }
  destruct (String.eqb_spec (compute_hash cur) (hash cur)) as [E2|E2]; cbn [negb].
  2: { intros H. exists 0%nat, prev, cur, HashMatch.
       repeat split; auto; try (intros []; simpl; intros; try contradiction; assumption);
       intros; lia. }
  destruct (startswith (hash cur) tgt) eqn:E3; cbn [negb].
  2: { intros H. exists 0%nat, prev, cur, MeetsDifficulty.
       repeat split; auto.
       - simpl. congruence.
       - intros []; simpl; intros; try contradiction; assumption.
       - intros; lia. }
  intros H. destruct (IH cur H) as (i & p & c & k & Hp & Hc & Hm & Hk & Hb & Hj).
  exists (S i), p, c, k. repeat split; auto.
  intros [|j] p' c' Hlt Hp' Hc' k'.
  - injection Hp' as <-. injection Hc' as <-. destruct k'; assumption.
  - apply (Hj j p' c'); [lia | assumption | assumption].
Qed.

Lemma validate_from_cases (tgt prev_hash : string) (rest : list Block) :
  validate_from tgt prev_hash rest = success \/
  exists msg, validate_from tgt prev_hash rest = (false, msg).
Proof.
  revert prev_hash. induction rest as [|cur rest IH]; intros prev_hash.
  - left. reflexivity.
  - cbn [validate_from]. unfold failure.
    destruct (negb (String.eqb (previous_hash cur) prev_hash)); [right; eauto|].
    destruct (negb (String.eqb (compute_hash cur) (hash cur))); [right; eauto|].
    destruct (negb (startswith (hash cur) tgt)); [right; eauto|].
    apply IH.
Qed.

Lemma append_inj_l (s a b : string) : s +:+ a = s +:+ b -> a = b.
Proof.
  induction s as [|c s IH]; simpl; intros H; [exact H|].
  injection H as H. apply IH, H.
Qed.

(** The message of a failure tells which check failed. *)
Lemma failure_check_inj (n : Z) (k k' : check) :
  failure n k = failure n k' -> k = k'.
Proof.
  unfold failure. intros H. apply (f_equal snd) in H. cbn [snd] in H.
  apply append_inj_l in H. apply append_inj_l in H.
  destruct k, k'; try reflexivity; discriminate H.
Qed.

(** C2: [is_chain_valid] returns without changing anything; it goes through
    the blocks from position 1 on, each with the block before it, and makes
    on each the checks (a) [previous_hash], (b) recomputed digest,
    (c) difficulty prefix in this order. It answers success exactly when
    every block passes every check; otherwise it answers the failure of the
    first block that fails and of the first check that block fails, every
    block before it passing all three checks, whatever is wrong with the
    blocks after it. *)
Theorem is_chain_valid_first_failure (w : World) :
  exists r : bool * string,
    is_chain_valid w = Returns r w /\
    (r = success <->
     forall (i : nat) (p c : Block),
       chain w !! i = Some p -> chain w !! S i = Some c ->
       forall k, passes (target w) p c k) /\
    (r <> success ->
     exists (i : nat) (p c : Block) (k : check),
       chain w !! i = Some p /\ chain w !! S i = Some c /\
       r = failure (index c) k /\
       ~ passes (target w) p c k /\
       (forall k', before k' k -> passes (target w) p c k') /\
       (forall (j : nat) (p' c' : Block), (j < i)%nat ->
          chain w !! j = Some p' -> chain w !! S j = Some c' ->
          forall k', passes (target w) p' c' k')).
Proof.
  destruct (chain w) as [|g rest] eqn:Hc.
  - exists success. split; [apply is_chain_valid_empty, Hc|]. split.
    + split; [|reflexivity]. intros _ i p c Hp. destruct i; discriminate.
    + intros H. contradiction.
  - exists (validate_from (target w) (hash g) rest).
    split; [apply is_chain_valid_walk, Hc|]. split.
    + apply validate_from_success.
    + intros Hne.
      destruct (validate_from_cases (target w) (hash g) rest) as [H|[msg H]];
        [contradiction|].
      rewrite H. apply validate_from_failure, H.
Qed.

(** C10: [is_chain_valid] reads nothing of the first block but its stored
    digest. Two chains with the same difficulty and the same blocks behind
    the first, whose first blocks store the same digest, get the same answer,
    whatever else the first blocks hold; and a chain of one block gets
    success, whether or not that block's stored digest is the digest of its
    fields or has the difficulty prefix. *)
Theorem is_chain_valid_ignores_genesis (w w' : World) (g g' : Block)
    (rest : list Block) :
  chain w = g :: rest ->
  chain w' = g' :: rest ->
  difficulty w = difficulty w' ->
  hash g = hash g' ->
  (exists r, is_chain_valid w = Returns r w /\ is_chain_valid w' = Returns r w') /\
  (rest = [] -> is_chain_valid w = Returns success w).
Proof.
  intros Hc Hc' Hd Hh. split.
  - exists (validate_from (target w) (hash g) rest). split.
    + apply is_chain_valid_walk, Hc.
    + rewrite (is_chain_valid_walk w' g' rest Hc').
      unfold target. rewrite Hd, Hh. reflexivity.
  - intros ->. apply (is_chain_valid_walk w g [] Hc).
Qed.

Lemma is_chain_valid_ignores_genesis_witness :
  compute_hash forged_genesis <> hash forged_genesis /\
  startswith (hash (mkBlock 0 0.5 PyNone "0" 0 "ffff")) (target demo2) = false /\
  is_chain_valid demo2 = Returns success demo2 /\
  is_chain_valid demo2_forged = Returns success demo2_forged /\
  is_chain_valid (with_chain demo2 [mkBlock 0 0.5 PyNone "0" 0 "ffff"])
  = Returns success (with_chain demo2 [mkBlock 0 0.5 PyNone "0" 0 "ffff"]).
Proof.
  assert (Hv : is_chain_valid demo2 = Returns success demo2)
    by (vm_compute; reflexivity).
  split; [vm_compute; discriminate|].
  split; [vm_compute; reflexivity|].
  split; [exact Hv|]. split.
  - assert (Hc : chain demo2
                 = mkBlock 0 1700000000.25 (PyStr "Genesis Block") "0" 1
                     (hash forged_genesis) :: drop 1 (chain demo2))
      by (vm_compute; reflexivity).
    assert (Hc' : chain demo2_forged = forged_genesis :: drop 1 (chain demo2))
      by (vm_compute; reflexivity).
    assert (Hd : difficulty demo2 = difficulty demo2_forged)
      by (vm_compute; reflexivity).
    destruct (is_chain_valid_ignores_genesis _ _ _ _ _ Hc Hc' Hd eq_refl)
      as [(r & H1 & H2) _].
    rewrite H2. rewrite Hv in H1. apply Returns_inj in H1 as [<- _]. reflexivity.
  - apply (is_chain_valid_ignores_genesis
             (with_chain demo2 [mkBlock 0 0.5 PyNone "0" 0 "ffff"])
             (with_chain demo2 [mkBlock 0 0.5 PyNone "0" 0 "ffff"])
             (mkBlock 0 0.5 PyNone "0" 0 "ffff")
             (mkBlock 0 0.5 PyNone "0" 0 "ffff") []); reflexivity.
Defined.

(** ** The digest of a block *)














(** ** Mining *)

Lemma compute_hash_set_nonce_again (b : Block) (h : string) (m k : Z) :
  compute_hash (set_nonce (set_nonce (set_hash b h) m) k)
  = compute_hash (set_nonce b k).
Proof. apply compute_hash_congr; reflexivity. Qed.

Lemma set_hash_set_nonce_again (b : Block) (h x : string) (m k : Z) :
  set_hash (set_nonce (set_nonce (set_hash b h) m) k) x
  = set_hash (set_nonce b k) x.
Proof. reflexivity. Qed.

(** From here on the digest is used through the equations above only. *)
#[local] Opaque compute_hash.

(** What the loop has found when it returns: the first nonce, counting up
    from the block's own, whose digest has the prefix. *)
Lemma proof_of_work_loop_sound (fuel : nat) (tgt : string) (start : float) :
  forall (block : Block) (w : World) (b' : Block) (h : string) (n : Z)
         (t : float) (w' : World),
    proof_of_work_loop fuel tgt start block w = Returns (b', (h, n, t)) w' ->
    nonce block <= n /\
    startswith (compute_hash (set_nonce block n)) tgt = true /\
    (forall k, nonce block <= k < n ->
       startswith (compute_hash (set_nonce block k)) tgt = false) /\
    b' = set_hash (set_nonce block n) (compute_hash (set_nonce block n)) /\
    h = compute_hash (set_nonce block n) /\
    t = PrimFloat.sub (clock w (ticks w)) start /\
    w' = tick w.
Proof.
  induction fuel as [|fuel IH]; intros block w b' h n t w' H; [discriminate|].
  cbn [proof_of_work_loop] in H. cbv zeta in H.
  change (hash (set_hash block (compute_hash block))) with (compute_hash block) in H.
  destruct (startswith (compute_hash block) tgt) eqn:E.
  - unfold bind, time_time, ret in H.
    apply Returns_inj in H as [H ->].
    injection H as <- <- <- <-.
    change (nonce (set_hash block (compute_hash block))) with (nonce block).
    rewrite set_nonce_same.
    split; [lia|]. split; [exact E|]. split; [intros k Hk; lia|].
    repeat split; reflexivity.
  - apply IH in H.
    destruct H as (Hle & Hn & Hk & Hb & Hh & Ht & Hw).
    change (nonce block + 1 <= n) in Hle.
    rewrite compute_hash_set_nonce_again in Hn, Hb, Hh.
    rewrite set_hash_set_nonce_again in Hb.
    split; [lia|]. split; [exact Hn|]. split.
    { intros k Hlt. destruct (Z.eq_dec k (nonce block)) as [->|Hne].
      - rewrite set_nonce_same. exact E.
      - rewrite <- (compute_hash_set_nonce_again block (compute_hash block)
                      (nonce block + 1) k).
        apply Hk. change (nonce block + 1 <= k < n). lia. }
    split; [exact Hb|]. split; [exact Hh|]. split; [exact Ht | exact Hw].
Qed.

(** The loop returns as soon as it has rounds enough to reach a nonce whose
    digest has the prefix. *)
Lemma proof_of_work_loop_complete (fuel : nat) (tgt : string) (start : float) :
  forall (block : Block) (w : World) (n : Z),
    nonce block <= n ->
    startswith (compute_hash (set_nonce block n)) tgt = true ->
    (Z.to_nat (n - nonce block) < fuel)%nat ->
    exists r, proof_of_work_loop fuel tgt start block w = Returns r (tick w).
Proof.
  induction fuel as [|fuel IH]; intros block w n Hle Hn Hf; [lia|].
  cbn [proof_of_work_loop]. cbv zeta.
  change (hash (set_hash block (compute_hash block))) with (compute_hash block).
  destruct (startswith (compute_hash block) tgt) eqn:E.
  - unfold bind, time_time, ret. eexists. reflexivity.
  - assert (Hne : n <> nonce block).
    { intros ->. rewrite set_nonce_same in Hn. rewrite Hn in E. discriminate. }
    apply (IH _ w n).
    + change (nonce block + 1 <= n). lia.
    + rewrite compute_hash_set_nonce_again. exact Hn.
    + change (Z.to_nat (n - (nonce block + 1)) < fuel)%nat. lia.
Qed.

(** The loop raises nothing. *)
Lemma proof_of_work_loop_no_raise (fuel : nat) (tgt : string) (start : float) :
  forall (block : Block) (w : World) (e : exn) (w' : World),
    proof_of_work_loop fuel tgt start block w <> Raises e w'.
Proof.
  induction fuel as [|fuel IH]; intros block w e w'; [discriminate|].
  cbn [proof_of_work_loop]. cbv zeta.
  destruct (startswith _ tgt); [discriminate | apply IH].
Qed.

Lemma proof_of_work_unfold (fuel : nat) (block : Block) (w : World) :
  proof_of_work fuel block w
  = proof_of_work_loop fuel (target w) (clock w (ticks w)) block (tick w).
Proof. reflexivity. Qed.

(** C7: when [proof_of_work] returns on a block, with a difficulty that is
    not negative, the nonce it ends on is the least nonce, from the one the
    block came with, whose digest starts with [difficulty] zeros or more; the
    block then stores that nonce and the digest of its fields, which has the
    prefix, and the method returns that digest and that nonce (with the time
    between its two readings of the clock). It changes nothing else, and it
    does return when it is given rounds enough to reach such a nonce. *)
Theorem proof_of_work_least_nonce (fuel : nat) (block : Block) (w : World) :
  0 <= difficulty w ->
  (forall (b' : Block) (h : string) (n : Z) (t : float) (w' : World),
     proof_of_work fuel block w = Returns (b', (h, n, t)) w' ->
     nonce block <= n /\
     (Z.to_nat (difficulty w) <= leading_zeros (compute_hash (set_nonce block n)))%nat /\
     (forall k, nonce block <= k < n ->
        (leading_zeros (compute_hash (set_nonce block k)) < Z.to_nat (difficulty w))%nat) /\
     b' = set_hash (set_nonce block n) h /\
     nonce b' = n /\ hash b' = h /\
     hash b' = compute_hash b' /\
     startswith (hash b') (target w) = true /\
     t = PrimFloat.sub (clock w (S (ticks w))) (clock w (ticks w)) /\
     chain w' = chain w /\ difficulty w' = difficulty w) /\
  (forall n : Z,
     nonce block <= n ->
     (Z.to_nat (difficulty w) <= leading_zeros (compute_hash (set_nonce block n)))%nat ->
     (Z.to_nat (n - nonce block) < fuel)%nat ->
     exists r w', proof_of_work fuel block w = Returns r w').
Proof.
  intros Hd. split.
  - intros b' h n t w' H. rewrite proof_of_work_unfold in H.
    apply proof_of_work_loop_sound in H.
    destruct H as (Hle & Hn & Hk & -> & -> & -> & ->).
    split; [exact Hle|]. split; [apply startswith_target, Hn|].
    split.
    { intros k Hlt. specialize (Hk k Hlt).
      destruct (Nat.lt_ge_cases (leading_zeros (compute_hash (set_nonce block k)))
                  (Z.to_nat (difficulty w))) as [Hlt'|Hge]; [exact Hlt'|].
      apply startswith_target in Hge. unfold target in Hk.
      rewrite Hge in Hk. discriminate. }
    split; [reflexivity|]. split; [reflexivity|]. split; [reflexivity|].
    split; [reflexivity|]. split; [exact Hn|].
    split; [reflexivity|]. split; reflexivity.
  - intros n Hle Hz Hf. rewrite proof_of_work_unfold.
    apply startswith_target in Hz.
    destruct (proof_of_work_loop_complete fuel (target w) (clock w (ticks w))
                block (tick w) n Hle Hz Hf) as [r Hr].
    exists r, (tick (tick w)). exact Hr.
Qed.

Lemma proof_of_work_least_nonce_witness :
  0 <= difficulty demo_mining /\
  proof_of_work 64 demo_genesis demo_mining
  = Returns (set_hash (set_nonce demo_genesis 1)
               "03725d131f81606b142f822b2f457b3ec169fc5aacd9b430d037f0da166ddffe",
             ("03725d131f81606b142f822b2f457b3ec169fc5aacd9b430d037f0da166ddffe",
              1, 0.5%float))
            (tick (tick demo_mining)) /\
  (forall k, nonce demo_genesis <= k < 1 ->
     (leading_zeros (compute_hash (set_nonce demo_genesis k))
      < Z.to_nat (difficulty demo_mining))%nat) /\
  (Z.to_nat (difficulty demo_mining)
   <= leading_zeros (compute_hash (set_nonce demo_genesis 1)))%nat.
Proof.
  assert (Hd : 0 <= difficulty demo_mining) by (vm_compute; discriminate).
  assert (Hr : proof_of_work 64 demo_genesis demo_mining
               = Returns (set_hash (set_nonce demo_genesis 1)
                            "03725d131f81606b142f822b2f457b3ec169fc5aacd9b430d037f0da166ddffe",
                          ("03725d131f81606b142f822b2f457b3ec169fc5aacd9b430d037f0da166ddffe",
                           1, 0.5%float))
                         (tick (tick demo_mining)))
    by (vm_compute; reflexivity).
  destruct (proof_of_work_least_nonce 64 demo_genesis demo_mining Hd) as [Hs _].
  destruct (Hs _ _ _ _ _ Hr) as (_ & Hz & Hk & _).
  split; [exact Hd|]. split; [exact Hr|]. split; [exact Hk | exact Hz].
Defined.

(** ** Adding a block *)

Lemma compute_hash_mined (block : Block) (n : Z) :
  compute_hash (mined block n) = hash (mined block n).
Proof. unfold mined. rewrite compute_hash_set_hash. reflexivity. Qed.

Lemma compute_hash_set_nonce_mined (block : Block) (n k : Z) :
  compute_hash (set_nonce (mined block n) k) = compute_hash (set_nonce block k).
Proof. apply compute_hash_congr; reflexivity. Qed.

Lemma set_hash_mined (block : Block) (n : Z) :
  set_hash (mined block n) (compute_hash (set_nonce block n)) = mined block n.
Proof. reflexivity. Qed.

(** [proof_of_work] in terms of the nonce it stops at. *)
Lemma proof_of_work_sound (fuel : nat) (block : Block) (w : World)
    (r : Block * (string * Z * float)) (w' : World) :
  proof_of_work fuel block w = Returns r w' ->
  exists n : Z,
    nonce block <= n /\
    startswith (hash (mined block n)) (target w) = true /\
    (forall k, nonce block <= k < n ->
       startswith (compute_hash (set_nonce block k)) (target w) = false) /\
    r = (mined block n,
         (hash (mined block n), n,
          PrimFloat.sub (clock w (S (ticks w))) (clock w (ticks w)))) /\
    w' = tick (tick w).
Proof.
  intros H. rewrite proof_of_work_unfold in H.
  destruct r as [b' [[h n] t]].
  apply proof_of_work_loop_sound in H.
  destruct H as (Hle & Hn & Hk & -> & -> & -> & ->).
  exists n. split; [exact Hle|]. split; [exact Hn|]. split; [exact Hk|].
  split; reflexivity.
Qed.

Lemma proof_of_work_complete (fuel : nat) (block : Block) (w : World) (n : Z) :
  nonce block <= n ->
  startswith (compute_hash (set_nonce block n)) (target w) = true ->
  (Z.to_nat (n - nonce block) < fuel)%nat ->
  exists r, proof_of_work fuel block w = Returns r (tick (tick w)).
Proof.
  intros Hle Hn Hf. rewrite proof_of_work_unfold.
  apply (proof_of_work_loop_complete fuel (target w) (clock w (ticks w))
           block (tick w) n Hle Hn Hf).
Qed.

Lemma proof_of_work_no_raise (fuel : nat) (block : Block) (w : World)
    (e : exn) (w' : World) :
  proof_of_work fuel block w <> Raises e w'.
Proof. rewrite proof_of_work_unfold. apply proof_of_work_loop_no_raise. Qed.

Lemma add_block_unfold (fuel : nat) (v : pyval) (w : World) (lastb : Block) :
  last (chain w) = Some lastb ->
  add_block fuel v w =
  match proof_of_work fuel (candidate w lastb v) (tick w) with
  | Returns r w1 =>
      Returns (summary (set_hash (fst r) (fst (fst (snd r)))) (snd (snd r)))
        (with_chain w1 (chain w1 ++ [set_hash (fst r) (fst (fst (snd r)))]))
  | Raises e w1 => Raises e w1
  | Diverges => Diverges
  end.
Proof.
  intros Hl. unfold add_block. unfold bind at 1.
  rewrite (last_block_returns w lastb Hl).
  unfold bind at 1. unfold time_time at 1.
  unfold bind at 1.
  rewrite (last_block_returns (tick w) lastb Hl).
  unfold bind at 1. fold (candidate w lastb v).
  destruct (proof_of_work fuel (candidate w lastb v) (tick w))
    as [[b' [[h n] t]] w1|e w1|]; reflexivity.
Qed.

(** What [add_block] has done when it returns. *)
Lemma add_block_sound (fuel : nat) (v : pyval) (w : World) (lastb : Block)
    (r : pyval) (w' : World) :
  last (chain w) = Some lastb ->
  add_block fuel v w = Returns r w' ->
  exists n : Z,
    0 <= n /\
    startswith (hash (mined (candidate w lastb v) n)) (target w) = true /\
    (forall k, 0 <= k < n ->
       startswith (compute_hash (set_nonce (candidate w lastb v) k)) (target w) = false) /\
    r = summary (mined (candidate w lastb v) n)
          (PrimFloat.sub (clock w (S (S (ticks w)))) (clock w (S (ticks w)))) /\
    w' = with_chain (tick (tick (tick w))) (chain w ++ [mined (candidate w lastb v) n]).
Proof.
  intros Hl H. rewrite (add_block_unfold fuel v w lastb Hl) in H.
  destruct (proof_of_work fuel (candidate w lastb v) (tick w)) as [r1 w1|e w1|] eqn:E;
    [|discriminate H|discriminate H].
  apply proof_of_work_sound in E. destruct E as (n & Hle & Hn & Hk & -> & ->).
  apply Returns_inj in H as [<- <-].
  cbn [fst snd]. rewrite set_hash_same.
  exists n. split; [exact Hle|]. split; [exact Hn|]. split; [exact Hk|].
  split; reflexivity.
Qed.

(** [add_block] returns when it has rounds enough to reach a nonce whose
    digest has the prefix. *)
Lemma add_block_complete (fuel : nat) (v : pyval) (w : World) (lastb : Block)
    (n : Z) :
  last (chain w) = Some lastb ->
  0 <= n ->
  startswith (compute_hash (set_nonce (candidate w lastb v) n)) (target w) = true ->
  (Z.to_nat n < fuel)%nat ->
  exists r w', add_block fuel v w = Returns r w'.
Proof.
  intros Hl Hle Hn Hf. rewrite (add_block_unfold fuel v w lastb Hl).
  destruct (proof_of_work_complete fuel (candidate w lastb v) (tick w) n)
    as [r Hr].
  - exact Hle.
  - exact Hn.
  - change (Z.to_nat (n - 0) < fuel)%nat. lia.
  - rewrite Hr. eexists. eexists. reflexivity.
Qed.

Lemma index_mined (block : Block) (n : Z) : index (mined block n) = index block.
Proof. reflexivity. Qed.

Lemma nonce_mined (block : Block) (n : Z) : nonce (mined block n) = n.
Proof. reflexivity. Qed.

Lemma candidate_fields (w : World) (lastb : Block) (v : pyval) (n : Z) :
  index (mined (candidate w lastb v) n) = index lastb + 1 /\
  timestamp (mined (candidate w lastb v) n) = clock w (ticks w) /\
  data (mined (candidate w lastb v) n) = v /\
  previous_hash (mined (candidate w lastb v) n) = hash lastb.
Proof. repeat split; reflexivity. Qed.

(** C6: on a chain that has a last block, [add_block data], when it returns,
    has appended one block and nothing else: the chain is the old one with
    that block behind it. The block's index is the old last block's plus 1,
    its [previous_hash] is the old last block's stored digest, its payload is
    [data], and it is mined: its stored digest is the digest of its fields and
    has the difficulty prefix, its nonce being the first from 0 to give one.
    The dict returned holds the block's index, stored digest and nonce and
    the time [proof_of_work] measured. And [add_block] does return, given
    rounds enough to reach a nonce whose digest has the prefix. *)
Theorem add_block_appends_mined_block (fuel : nat) (v : pyval) (w : World)
    (lastb : Block) :
  last (chain w) = Some lastb ->
  (forall (r : pyval) (w' : World),
     add_block fuel v w = Returns r w' ->
     exists (b : Block) (t : float),
       chain w' = chain w ++ [b] /\
       length (chain w') = S (length (chain w)) /\
       difficulty w' = difficulty w /\
       index b = index lastb + 1 /\
       previous_hash b = hash lastb /\
       data b = v /\
       timestamp b = clock w (ticks w) /\
       hash b = compute_hash b /\
       startswith (hash b) (target w) = true /\
       0 <= nonce b /\
       (forall k, 0 <= k < nonce b ->
          startswith (compute_hash (set_nonce b k)) (target w) = false) /\
       r = PyDict [("index", PyInt (index b)); ("hash", PyStr (hash b));
                   ("nonce", PyInt (nonce b)); ("time_taken_sec", PyFloat t)] /\
       t = PrimFloat.sub (clock w (S (S (ticks w)))) (clock w (S (ticks w)))) /\
  (forall n : Z,
     0 <= n ->
     startswith (compute_hash (set_nonce (candidate w lastb v) n)) (target w) = true ->
     (Z.to_nat n < fuel)%nat ->
     exists r w', add_block fuel v w = Returns r w').
Proof.
  intros Hl. split.
  - intros r w' H.
    destruct (add_block_sound fuel v w lastb r w' Hl H)
      as (n & Hle & Hn & Hk & -> & ->).
    destruct (candidate_fields w lastb v n) as (Hi & Ht & Hd & Hp).
    exists (mined (candidate w lastb v) n),
      (PrimFloat.sub (clock w (S (S (ticks w)))) (clock w (S (ticks w)))).
    split; [reflexivity|].
    split; [cbn [chain with_chain]; rewrite length_app; simpl; lia|].
    split; [reflexivity|].
    split; [exact Hi|]. split; [exact Hp|]. split; [exact Hd|].
    split; [exact Ht|].
    split; [symmetry; apply compute_hash_mined|].
    split; [exact Hn|].
    rewrite nonce_mined. split; [exact Hle|].
    split.
    { intros k Hlt. rewrite compute_hash_set_nonce_mined. apply Hk, Hlt. }
    split; reflexivity.
  - intros n Hle Hn Hf. apply (add_block_complete fuel v w lastb n Hl Hle Hn Hf).
Qed.

Lemma add_block_appends_mined_block_witness :
  exists b : Block,
    last (chain demo0) = Some (mined demo_genesis 1) /\
    chain demo1 = chain demo0 ++ [b] /\
    index b = index (mined demo_genesis 1) + 1 /\
    previous_hash b = hash (mined demo_genesis 1) /\
    data b = transfer /\
    hash b = compute_hash b /\
    startswith (hash b) (target demo0) = true.
Proof.
  assert (Hl : last (chain demo0) = Some (mined demo_genesis 1))
    by (vm_compute; reflexivity).
  assert (Hr : add_block 64 transfer demo0
               = Returns (summary (mined (candidate demo0 (mined demo_genesis 1) transfer) 14)
                            0.5%float) demo1)
    by (vm_compute; reflexivity).
  destruct (add_block_appends_mined_block 64 transfer demo0 _ Hl) as [Hs _].
  destruct (Hs _ _ Hr) as (b & t & Hc & _ & _ & Hi & Hp & Hd & _ & Hh & Hz & _).
  exists b.
  split; [exact Hl|]. split; [exact Hc|]. split; [exact Hi|].
  split; [exact Hp|]. split; [exact Hd|]. split; [exact Hh | exact Hz].
Defined.

(** ** Chains built by the constructor and [add_block] *)

Lemma linked_valid (w : World) :
  linked (target w) (chain w) -> is_chain_valid w = Returns success w.
Proof.
  intros H. destruct (chain w) as [|g rest] eqn:Hc.
  - apply is_chain_valid_empty, Hc.
  - rewrite (is_chain_valid_walk w g rest Hc). f_equal.
    apply validate_from_success. exact H.
Qed.

Lemma valid_linked (w : World) :
  is_chain_valid w = Returns success w -> linked (target w) (chain w).
Proof.
  intros H. destruct (chain w) as [|g rest] eqn:Hc.
  - intros i p b Hp. destruct i; discriminate.
  - rewrite (is_chain_valid_walk w g rest Hc) in H.
    apply Returns_inj in H as [H _].
    unfold linked. apply validate_from_success. exact H.
Qed.

Lemma linked_snoc (tgt : string) (c : list Block) (lastb b : Block) :
  linked tgt c -> last c = Some lastb ->
  (forall k, passes tgt lastb b k) ->
  linked tgt (c ++ [b]).
Proof.
  intros Hc Hl Hb i p b' Hp Hb'.
  rewrite last_lookup in Hl.
  destruct (Nat.lt_ge_cases (S i) (length c)) as [Hlt|Hge].
  - rewrite lookup_app_l in Hp by lia. rewrite lookup_app_l in Hb' by lia.
    apply (Hc i p b' Hp Hb').
  - assert (Hi : S i = length c).
    { apply lookup_lt_Some in Hb'. rewrite length_app in Hb'. simpl in Hb'. lia. }
    rewrite lookup_app_l in Hp by lia.
    replace (pred (length c)) with i in Hl by lia.
    rewrite Hl in Hp. injection Hp as <-.
    rewrite Hi in Hb'. rewrite list_lookup_middle in Hb' by reflexivity.
    injection Hb' as <-. exact Hb.
Qed.

Lemma indexed_snoc (c : list Block) (lastb b : Block) :
  indexed c -> last c = Some lastb -> index b = index lastb + 1 ->
  indexed (c ++ [b]).
Proof.
  intros Hc Hl Hb i b' Hb'.
  rewrite last_lookup in Hl.
  destruct (Nat.lt_ge_cases i (length c)) as [Hlt|Hge].
  - rewrite lookup_app_l in Hb' by lia. apply (Hc i b' Hb').
  - assert (Hi : i = length c).
    { apply lookup_lt_Some in Hb'. rewrite length_app in Hb'. simpl in Hb'. lia. }
    rewrite Hi in Hb'. rewrite list_lookup_middle in Hb' by reflexivity.
    injection Hb' as <-. rewrite Hb.
    assert (Hpos : (0 < length c)%nat).
    { destruct c; [discriminate | simpl; lia]. }
    rewrite (Hc _ _ Hl). lia.
Qed.

(** What the constructor has made when it returns: a chain of one mined
    block. *)
Lemma Blockchain_init_sound (fuel : nat) (d : Z) (w0 w : World) :
  Blockchain_init fuel d w0 = Returns tt w ->
  exists n : Z,
    0 <= n /\
    chain w
    = [mined (Block_init 0 (clock w0 (ticks w0)) (PyStr "Genesis Block") "0" 0) n] /\
    difficulty w = d /\
    startswith
      (hash (mined (Block_init 0 (clock w0 (ticks w0)) (PyStr "Genesis Block") "0" 0) n))
      (str_mul "0" d) = true.
Proof.
  intros H. unfold Blockchain_init, create_genesis_block in H.
  unfold bind at 1 2 3 4, set_chain at 1, set_difficulty, time_time at 1 in H.
  destruct (proof_of_work fuel _ _) as [r1 w1|e w1|] eqn:E in H;
    [|discriminate H|discriminate H].
  apply proof_of_work_sound in E. destruct E as (n & Hle & Hn & Hk & -> & ->).
  cbn [fst snd] in H. rewrite set_hash_same in H.
  unfold chain_append, bind, get_chain, set_chain in H.
  apply Returns_inj in H as [_ <-].
  exists n. split; [exact Hle|]. split; [reflexivity|]. split; [reflexivity|].
  exact Hn.
Qed.

(** The constructor returns when it has rounds enough to reach a nonce
    whose digest has the prefix. *)
Lemma Blockchain_init_complete (fuel : nat) (d : Z) (w0 : World) (n : Z) :
  0 <= n ->
  startswith
    (compute_hash
       (set_nonce (Block_init 0 (clock w0 (ticks w0)) (PyStr "Genesis Block") "0" 0) n))
    (str_mul "0" d) = true ->
  (Z.to_nat n < fuel)%nat ->
  exists w, Blockchain_init fuel d w0 = Returns tt w.
Proof.
  intros Hle Hn Hf. unfold Blockchain_init, create_genesis_block.
  unfold bind at 1 2 3 4, set_chain at 1, set_difficulty, time_time at 1.
  match goal with
  | |- context [proof_of_work ?f ?b ?w] =>
      destruct (proof_of_work_complete f b w n) as [r Hr];
        [exact Hle | exact Hn | change (Z.to_nat (n - 0) < fuel)%nat; lia |]
  end.
  rewrite Hr. unfold chain_append, bind, get_chain, set_chain.
  eexists. reflexivity.
Qed.

(** A chain made by the constructor and [add_block] has a first block, every
    block carries its position, and every block behind the first passes the
    three checks. *)
Lemma built_invariant (w : World) :
  built w -> chain w <> [] /\ indexed (chain w) /\ linked (target w) (chain w).
Proof.
  induction 1 as [fuel d w0 w Hd H | fuel v w r w' Hb IH H].
  - apply Blockchain_init_sound in H. destruct H as (n & _ & Hc & _ & _).
    rewrite Hc. split; [discriminate|]. split.
    + intros [|i] b Hb; [|destruct i; discriminate].
      injection Hb as <-. reflexivity.
    + intros i p b Hp Hb'. destruct i; discriminate.
  - destruct IH as (Hne & Hi & Hl).
    destruct (last (chain w)) as [lastb|] eqn:Hlast.
    2: { apply last_None in Hlast. contradiction. }
    destruct (add_block_sound fuel v w lastb r w' Hlast H)
      as (n & Hle & Hn & Hk & -> & ->).
    cbn [chain with_chain]. split.
    { intros Habs. apply app_eq_nil in Habs as [_ Habs]. discriminate. }
    split.
    + apply (indexed_snoc _ lastb); [exact Hi | exact Hlast | reflexivity].
    + apply (linked_snoc _ _ lastb); [exact Hl | exact Hlast |].
      intros [].
      * reflexivity.
      * apply compute_hash_mined.
      * exact Hn.
Qed.

(** C3: after [Blockchain(difficulty)] with a difficulty that is not
    negative, and after each [add_block] that follows, with no
    [tamper_with_block] in between, [is_chain_valid] answers success (and
    changes nothing). *)
Theorem is_chain_valid_built (w : World) :
  built w -> is_chain_valid w = Returns success w.
Proof.
  intros H. apply linked_valid. apply (built_invariant w H).
Qed.

(** The session of the demo is such a chain. *)
Lemma built_demo2 : built demo2.
Proof.
  assert (H0 : Blockchain_init 64 1 fresh = Returns tt demo0)
    by (vm_compute; reflexivity).
  assert (H1 : add_block 64 transfer demo0
               = Returns (summary (mined (candidate demo0 (mined demo_genesis 1) transfer) 14)
                            0.5%float) demo1)
    by (vm_compute; reflexivity).
  assert (H2 : add_block 64 (PyStr "Second transaction") demo1
               = Returns (result_of (add_block 64 (PyStr "Second transaction") demo1))
                   demo2)
    by (vm_compute; reflexivity).
  apply (built_add_block _ _ _ _ _ (built_add_block _ _ _ _ _
           (built_init 64 1 fresh demo0 ltac:(lia) H0) H1) H2).
Qed.

Lemma is_chain_valid_built_witness :
  built demo2 /\ is_chain_valid demo2 = Returns success demo2.
Proof.
  split; [exact built_demo2|].
  apply is_chain_valid_built. exact built_demo2.
Defined.

(** ** Tampering *)

Lemma Raises_inj {A} (e e' : exn) (w w' : World) :
  @Raises A e w = Raises e' w' -> e = e' /\ w = w'.
Proof. intros H. injection H as -> ->. split; reflexivity. Qed.

Lemma tamper_with_block_raises (i : Z) (v : pyval) (w : World) :
  i <= 0 \/ len (chain w) <= i ->
  tamper_with_block i v w
  = Raises (IndexError "Invalid block index to tamper with.") w.
Proof.
  intros H. unfold tamper_with_block, bind, get_chain.
  destruct (Z.leb_spec i 0); [reflexivity|].
  destruct (Z.leb_spec (len (chain w)) i); [reflexivity | lia].
Qed.

Lemma tamper_with_block_ok (i : Z) (v : pyval) (w : World) (b : Block) :
  0 < i < len (chain w) -> chain w !! Z.to_nat i = Some b ->
  tamper_with_block i v w
  = Returns tt (with_chain w (<[Z.to_nat i := set_data b v]> (chain w))).
Proof.
  intros H Hb. unfold tamper_with_block, bind, get_chain.
  destruct (Z.leb_spec i 0); [lia|].
  destruct (Z.leb_spec (len (chain w)) i); [lia|].
  cbn [orb]. unfold chain_setitem_data, bind, get_chain.
  rewrite (getitem_lookup (chain w) i b w) by (lia || exact Hb).
  rewrite position_in_range by lia. reflexivity.
Qed.

Lemma tamper_with_block_returns (i : Z) (v : pyval) (w w' : World) :
  tamper_with_block i v w = Returns tt w' ->
  exists b : Block,
    0 < i < len (chain w) /\ chain w !! Z.to_nat i = Some b /\
    w' = with_chain w (<[Z.to_nat i := set_data b v]> (chain w)).
Proof.
  intros H.
  destruct (Z.le_gt_cases i 0) as [Hi|Hi].
  { rewrite tamper_with_block_raises in H by lia. discriminate H. }
  destruct (Z.le_gt_cases (len (chain w)) i) as [Hl|Hl].
  { rewrite tamper_with_block_raises in H by lia. discriminate H. }
  destruct (chain w !! Z.to_nat i) as [b|] eqn:Hb.
  2: { apply lookup_ge_None in Hb. unfold len in Hl. lia. }
  rewrite (tamper_with_block_ok i v w b) in H by (lia || exact Hb).
  apply Returns_inj in H as [_ <-].
  exists b. split; [lia|]. split; reflexivity.
Qed.

(** C4: [tamper_with_block(i, new_data)] raises [IndexError] exactly when
    [i <= 0] or [i >= len(chain)], and whenever it raises, the world (every
    block, the length, the difficulty) is what it was. *)
Theorem tamper_with_block_out_of_range (w : World) (i : Z) (v : pyval) :
  (i <= 0 \/ len (chain w) <= i <->
   exists msg w', tamper_with_block i v w = Raises (IndexError msg) w') /\
  (forall e w', tamper_with_block i v w = Raises e w' -> w' = w).
Proof.
  destruct (Z.le_gt_cases i 0) as [Hi|Hi];
    [|destruct (Z.le_gt_cases (len (chain w)) i) as [Hl|Hl]].
  1, 2: rewrite tamper_with_block_raises by lia; split;
    [ split; [intros _; eexists; eexists; reflexivity | intros _; lia]
    | intros e w' H; apply Raises_inj in H as [_ <-]; reflexivity ].
  destruct (chain w !! Z.to_nat i) as [b|] eqn:Hb.
  2: { apply lookup_ge_None in Hb. unfold len in Hl. lia. }
  rewrite (tamper_with_block_ok i v w b) by (lia || exact Hb). split.
  - split; [lia|]. intros (msg & w' & H). discriminate H.
  - intros e w' H. discriminate H.
Qed.

(** C5: for [0 < i < len(chain)], [tamper_with_block(i, new_data)] returns,
    and afterwards the block at [i] holds [new_data] and its other five
    fields, the stored digest among them, as before; every other block is
    the same; the length and the difficulty are the same. *)
Theorem tamper_with_block_frame (w : World) (i : Z) (v : pyval) :
  0 < i < len (chain w) ->
  exists (b b' : Block) (w' : World),
    chain w !! Z.to_nat i = Some b /\
    tamper_with_block i v w = Returns tt w' /\
    chain w' !! Z.to_nat i = Some b' /\
    data b' = v /\
    index b' = index b /\ timestamp b' = timestamp b /\
    previous_hash b' = previous_hash b /\ nonce b' = nonce b /\
    hash b' = hash b /\
    (forall j : nat, j <> Z.to_nat i -> chain w' !! j = chain w !! j) /\
    length (chain w') = length (chain w) /\
    difficulty w' = difficulty w.
Proof.
  intros H.
  destruct (chain w !! Z.to_nat i) as [b|] eqn:Hb.
  2: { apply lookup_ge_None in Hb. unfold len in H. lia. }
  exists b, (set_data b v),
    (with_chain w (<[Z.to_nat i := set_data b v]> (chain w))).
  split; [reflexivity|].
  split; [apply tamper_with_block_ok; [exact H | exact Hb]|].
  cbn [chain with_chain difficulty].
  split; [apply list_lookup_insert_eq; apply lookup_lt_Some in Hb; exact Hb|].
  repeat (split; [reflexivity|]).
  split; [intros j Hj; apply list_lookup_insert_ne; congruence|].
  split; [apply length_insert | reflexivity].
Qed.

Lemma tamper_with_block_frame_witness :
  0 < 1 < len (chain demo2) /\
  exists (b b' : Block) (w' : World),
    chain demo2 !! Z.to_nat 1 = Some b /\
    tamper_with_block 1 (PyStr "Hacked data") demo2 = Returns tt w' /\
    chain w' !! Z.to_nat 1 = Some b' /\
    data b' = PyStr "Hacked data" /\
    hash b' = hash b /\
    length (chain w') = length (chain demo2).
Proof.
  assert (H : 0 < 1 < len (chain demo2)) by (vm_compute; split; reflexivity).
  split; [exact H|].
  destruct (tamper_with_block_frame demo2 1 (PyStr "Hacked data") H)
    as (b & b' & w' & Hb & Ht & Hb' & Hd & _ & _ & _ & _ & Hh & _ & Hl & _).
  exists b, b', w'.
  split; [exact Hb|]. split; [exact Ht|]. split; [exact Hb'|].
  split; [exact Hd|]. split; [exact Hh | exact Hl].
Defined.

(** ** Tampering and validation *)

Lemma failure_not_success (n : Z) (k : check) : failure n k <> success.
Proof. intros H. apply (f_equal fst) in H. discriminate H. Qed.

(** A walk that succeeds fails on the block whose payload is replaced, at
    the digest check, when the new payload changes the digest. *)
Lemma validate_from_tampered (tgt : string) (v : pyval) (b : Block)
    (l2 l1 : list Block) (ph : string) :
  validate_from tgt ph (l1 ++ b :: l2) = success ->
  compute_hash (set_data b v) <> hash b ->
  validate_from tgt ph (l1 ++ set_data b v :: l2) = failure (index b) HashMatch.
Proof.
  intros H Hne. revert ph H. induction l1 as [|x l1 IH]; intros ph H.
  - cbn [app validate_from] in *.
    change (previous_hash (set_data b v)) with (previous_hash b).
    change (hash (set_data b v)) with (hash b).
    change (index (set_data b v)) with (index b).
    destruct (negb (String.eqb (previous_hash b) ph)).
    { apply failure_not_success in H. contradiction. }
    destruct (String.eqb_spec (compute_hash (set_data b v)) (hash b)) as [E|E];
      [contradiction | reflexivity].
  - cbn [app validate_from] in *.
    destruct (negb (String.eqb (previous_hash x) ph)).
    { apply failure_not_success in H. contradiction. }
    destruct (negb (String.eqb (compute_hash x) (hash x))).
    { apply failure_not_success in H. contradiction. }
    destruct (negb (startswith (hash x) tgt)).
    { apply failure_not_success in H. contradiction. }
    apply IH, H.
Qed.

Lemma indexed_insert_data (c : list Block) (k : nat) (b : Block) (v : pyval) :
  indexed c -> c !! k = Some b -> indexed (<[k := set_data b v]> c).
Proof.
  intros Hc Hb j b' Hb'.
  destruct (Nat.eq_dec k j) as [<-|Hne].
  - rewrite list_lookup_insert_eq in Hb' by (apply lookup_lt_Some in Hb; exact Hb).
    injection Hb' as <-. apply (Hc k b Hb).
  - rewrite list_lookup_insert_ne in Hb' by exact Hne. apply (Hc j b' Hb').
Qed.

(** Whatever the three methods do to a chain, it has a first block and
    every block carries its position as its index. *)
Lemma reachable_indexed (w : World) :
  reachable w -> chain w <> [] /\ indexed (chain w).
Proof.
  induction 1 as [fuel d w0 w H | fuel v w r w' Hb IH H | i v w w' Hb IH H].
  - apply Blockchain_init_sound in H. destruct H as (n & _ & Hc & _ & _).
    rewrite Hc. split; [discriminate|].
    intros [|i] b Hb; [|destruct i; discriminate].
    injection Hb as <-. reflexivity.
  - destruct IH as (Hne & Hi).
    destruct (last (chain w)) as [lastb|] eqn:Hlast.
    2: { apply last_None in Hlast. contradiction. }
    destruct (add_block_sound fuel v w lastb r w' Hlast H)
      as (n & _ & _ & _ & _ & ->).
    cbn [chain with_chain]. split.
    { intros Habs. apply app_eq_nil in Habs as [_ Habs]. discriminate. }
    apply (indexed_snoc _ lastb); [exact Hi | exact Hlast | reflexivity].
  - destruct IH as (Hne & Hi).
    apply tamper_with_block_returns in H. destruct H as (b & Hr & Hb' & ->).
    cbn [chain with_chain]. split.
    { intros Habs. apply (f_equal length) in Habs.
      rewrite length_insert in Habs. destruct (chain w); [contradiction | discriminate]. }
    apply indexed_insert_data; [exact Hi | exact Hb'].
Qed.

Lemma built_reachable (w : World) : built w -> reachable w.
Proof.
  induction 1 as [fuel d w0 w Hd H | fuel v w r w' Hb IH H].
  - apply (reach_init fuel d w0 w H).
  - apply (reach_add_block fuel v w r w' IH H).
Qed.

(** C1, as the code has it: on a chain got through the methods, which
    [is_chain_valid] accepts, [tamper_with_block(i, new_data)] with
    [0 < i < len(chain)] replaces the payload of the block at [i] and leaves
    its stored digest; and when the digest of the block with the new payload
    is not that stored digest, [is_chain_valid] then answers the failure of
    block [i] at the digest check. *)
Theorem tamper_detected (w : World) (i : Z) (v : pyval) (b : Block) :
  reachable w ->
  is_chain_valid w = Returns success w ->
  0 < i < len (chain w) ->
  chain w !! Z.to_nat i = Some b ->
  compute_hash (set_data b v) <> hash b ->
  exists (b' : Block) (w' : World),
    tamper_with_block i v w = Returns tt w' /\
    chain w' !! Z.to_nat i = Some b' /\
    data b' = v /\ hash b' = hash b /\
    is_chain_valid w'
    = Returns (false, "Block " +:+ str_of_int i +:+ " hash mismatch.") w'.
Proof.
  intros Hreach Hv Hi Hb Hne.
  exists (set_data b v), (with_chain w (<[Z.to_nat i := set_data b v]> (chain w))).
  split; [apply tamper_with_block_ok; [exact Hi | exact Hb]|].
  cbn [chain with_chain].
  split; [apply list_lookup_insert_eq; apply lookup_lt_Some in Hb; exact Hb|].
  split; [reflexivity|]. split; [reflexivity|].
  destruct (reachable_indexed w Hreach) as [_ Hidx].
  assert (Hib : index b = i).
  { rewrite (Hidx _ _ Hb). lia. }
  destruct (chain w) as [|g rest] eqn:Hc; [discriminate Hb|].
  rewrite (is_chain_valid_walk w g rest Hc) in Hv.
  apply Returns_inj in Hv as [Hv _].
  destruct (Z.to_nat i) as [|j] eqn:Hj; [lia|].
  cbn [lookup list_lookup] in Hb. change (rest !! j = Some b) in Hb.
  assert (Hc' : chain (with_chain w (<[S j := set_data b v]> (g :: rest)))
                = g :: <[j := set_data b v]> rest) by reflexivity.
  rewrite (is_chain_valid_walk _ _ _ Hc').
  f_equal.
  change (target (with_chain w (<[S j := set_data b v]> (g :: rest)))) with (target w).
  rewrite insert_take_drop by exact (lookup_lt_Some _ _ _ Hb).
  rewrite <- (take_drop_middle rest j b Hb) in Hv.
  rewrite (validate_from_tampered _ v b _ _ _ Hv Hne).
  rewrite Hib. reflexivity.
Qed.

Lemma tamper_detected_witness :
  exists (b' : Block) (w' : World),
    tamper_with_block 1 (PyStr "Hacked data") demo2 = Returns tt w' /\
    chain w' !! Z.to_nat 1 = Some b' /\
    data b' = PyStr "Hacked data" /\
    hash b' = hash (mined (candidate demo0 (mined demo_genesis 1) transfer) 14) /\
    is_chain_valid w'
    = Returns (false, "Block " +:+ str_of_int 1 +:+ " hash mismatch.") w'.
Proof.
  assert (Hv : is_chain_valid demo2 = Returns success demo2)
    by (vm_compute; reflexivity).
  assert (Hi : 0 < 1 < len (chain demo2)) by (vm_compute; split; reflexivity).
  assert (Hb : chain demo2 !! Z.to_nat 1
               = Some (mined (candidate demo0 (mined demo_genesis 1) transfer) 14))
    by (vm_compute; reflexivity).
  assert (Hne : compute_hash
                  (set_data (mined (candidate demo0 (mined demo_genesis 1) transfer) 14)
                     (PyStr "Hacked data"))
                <> hash (mined (candidate demo0 (mined demo_genesis 1) transfer) 14))
    by (vm_compute; discriminate).
  exact (tamper_detected demo2 1 (PyStr "Hacked data") _
           (built_reachable demo2 built_demo2) Hv Hi Hb Hne).
Defined.

(** C1 as the claim has it fails: on the chain of the demo, which
    [is_chain_valid] accepts, [tamper_with_block(1, transfer')] puts a tuple
    where a list was, json writes both the same way, the digest of the block
    is what it was, and [is_chain_valid] still answers success. *)
Lemma tamper_undetected :
  reachable demo2 /\
  is_chain_valid demo2 = Returns success demo2 /\
  0 < 1 < len (chain demo2) /\
  tamper_with_block 1 transfer' demo2 = Returns tt demo2_tampered /\
  data <$> chain demo2 !! Z.to_nat 1 = Some transfer /\
  data <$> chain demo2_tampered !! Z.to_nat 1 = Some transfer' /\
  transfer <> transfer' /\
  hash <$> chain demo2_tampered !! Z.to_nat 1 = hash <$> chain demo2 !! Z.to_nat 1 /\
  is_chain_valid demo2_tampered = Returns success demo2_tampered /\
  success <> (false, "Block " +:+ str_of_int 1 +:+ " hash mismatch.").
Proof.
  split; [exact (built_reachable demo2 built_demo2)|].
  split; [vm_compute; reflexivity|].
  split; [vm_compute; split; reflexivity|].
  split; [vm_compute; reflexivity|].
  split; [vm_compute; reflexivity|].
  split; [vm_compute; reflexivity|].
  split; [vm_compute; discriminate|].
  split; [vm_compute; reflexivity|].
  split; [vm_compute; reflexivity|].
  vm_compute; discriminate.
Qed.

(** ** The average nonce *)

Lemma sum_foldr (l : list Z) : sum l = foldr Z.add 0 l.
Proof.
  unfold sum. apply fold_symmetric; intros; lia.
Qed.

Lemma truediv_nonzero (a b : Z) (w : World) :
  b <> 0 ->
  truediv a b w
  = match Float64.div_int a b with
    | Some x => Returns x w
    | None => Raises (OverflowError "integer division result too large for a float") w
    end.
Proof.
  intros Hb. unfold truediv. destruct (Z.eqb_spec b 0); [contradiction|].
  destruct (Float64.div_int a b); reflexivity.
Qed.

Lemma average_nonce_unfold (w : World) :
  average_nonce w
  = if len (chain w) <=? 1 then Returns 0%float w
    else truediv (sum (map nonce (drop 1 (chain w)))) (len (chain w) - 1) w.
Proof.
  unfold average_nonce, bind, get_chain, ret.
  destruct (len (chain w) <=? 1); reflexivity.
Qed.

(** C8: on a chain of the genesis block alone [average_nonce] returns 0.0.
    On a longer chain it divides the sum of the nonces of the blocks behind
    the first by their number, which is not zero, the way [/] divides two
    [int]s: it returns the float nearest to the quotient (or raises
    [OverflowError] when the quotient is too large for a float). In no case
    does it raise [ZeroDivisionError], and it changes nothing. *)
Theorem average_nonce_mean (w : World) :
  (forall g, chain w = [g] -> average_nonce w = Returns 0%float w) /\
  (forall g b rest, chain w = g :: b :: rest ->
     len (b :: rest) <> 0 /\
     average_nonce w
     = match Float64.div_int (foldr Z.add 0 (map nonce (b :: rest))) (len (b :: rest)) with
       | Some x => Returns x w
       | None => Raises (OverflowError "integer division result too large for a float") w
       end) /\
  (forall msg w', average_nonce w <> Raises (ZeroDivisionError msg) w').
Proof.
  assert (Hlong : forall g b rest, chain w = g :: b :: rest ->
            len (b :: rest) <> 0 /\
            average_nonce w
            = match Float64.div_int (foldr Z.add 0 (map nonce (b :: rest)))
                      (len (b :: rest)) with
              | Some x => Returns x w
              | None => Raises (OverflowError "integer division result too large for a float") w
              end).
  { intros g b rest Hc.
    assert (Hn : len (b :: rest) <> 0) by (unfold len; simpl; lia).
    split; [exact Hn|].
    rewrite average_nonce_unfold, Hc.
    destruct (Z.leb_spec (len (g :: b :: rest)) 1) as [H|H];
      [unfold len in H; simpl in H; lia|].
    change (drop 1 (g :: b :: rest)) with (b :: rest).
    replace (len (g :: b :: rest) - 1) with (len (b :: rest))
      by (unfold len; simpl; lia).
    rewrite sum_foldr. apply truediv_nonzero, Hn. }
  split; [|split].
  - intros g Hc. rewrite average_nonce_unfold, Hc. reflexivity.
  - exact Hlong.
  - intros msg w' H.
    destruct (chain w) as [|g [|b rest]] eqn:Hc.
    + rewrite average_nonce_unfold, Hc in H. discriminate H.
    + rewrite average_nonce_unfold, Hc in H. discriminate H.
    + destruct (Hlong g b rest eq_refl) as [_ Ha]. rewrite Ha in H.
      destruct (Float64.div_int _ _); discriminate H.
Qed.

(** In the demo the two mined blocks have the nonces 14 and 12. *)
Example average_nonce_demo :
  average_nonce demo0 = Returns 0%float demo0 /\
  average_nonce demo2 = Returns 13%float demo2.
Proof. split; vm_compute; reflexivity. Qed.

(** With difficulty 0 every nonce is 0, and so is the average of a chain of
    several blocks: 0.0 is not the mark of a chain of the genesis block
    alone. *)
Example average_nonce_zero_difficulty :
  exists w : World,
    built w /\ length (chain w) = 2%nat /\ average_nonce w = Returns 0%float w.
Proof.
  exists (world_of (add_block 1 PyNone (world_of (Blockchain_init 1 0 fresh)))).
  split; [|split; vm_compute; reflexivity].
  assert (H0 : Blockchain_init 1 0 fresh = Returns tt (world_of (Blockchain_init 1 0 fresh)))
    by (vm_compute; reflexivity).
  assert (H1 : add_block 1 PyNone (world_of (Blockchain_init 1 0 fresh))
               = Returns (result_of (add_block 1 PyNone (world_of (Blockchain_init 1 0 fresh))))
                   (world_of (add_block 1 PyNone (world_of (Blockchain_init 1 0 fresh)))))
    by (vm_compute; reflexivity).
  apply (built_add_block _ _ _ _ _ (built_init 1 0 fresh _ ltac:(lia) H0) H1).
Qed.

(** * Further properties *)

(** ** The shape of the chains the methods make *)

Lemma reachable_genesis (w : World) :
  reachable w ->
  exists (g : Block) (rest : list Block),
    chain w = g :: rest /\
    index g = 0 /\ previous_hash g = "0" /\ data g = PyStr "Genesis Block".
Proof.
  induction 1 as [fuel d w0 w H | fuel v w r w' Hb IH H | i v w w' Hb IH H].
  - apply Blockchain_init_sound in H. destruct H as (n & _ & Hc & _ & _).
    eexists. exists []. split; [exact Hc|]. repeat split; reflexivity.
  - destruct IH as (g & rest & Hc & Hg).
    destruct (last (chain w)) as [lastb|] eqn:Hlast.
    2: { apply last_None in Hlast. rewrite Hc in Hlast. discriminate Hlast. }
    destruct (add_block_sound fuel v w lastb r w' Hlast H)
      as (n & _ & _ & _ & _ & ->).
    cbn [chain with_chain]. rewrite Hc.
    exists g. eexists. split; [reflexivity | exact Hg].
  - destruct IH as (g & rest & Hc & Hg).
    apply tamper_with_block_returns in H. destruct H as (b & Hr & Hb' & ->).
    cbn [chain with_chain]. rewrite Hc.
    destruct (Z.to_nat i) as [|j] eqn:Hj; [lia|].
    exists g, (<[j := set_data b v]> rest). split; [reflexivity | exact Hg].
Qed.

(** X1: whatever calls of the constructor, [add_block] and
    [tamper_with_block] led to a chain, it starts with a block of index 0,
    [previous_hash] ["0"] and payload ["Genesis Block"], which no tampering
    reaches, and the block at each position has that position as its
    index. *)
Theorem reachable_chain_shape (w : World) :
  reachable w ->
  (exists (g : Block) (rest : list Block),
     chain w = g :: rest /\
     index g = 0 /\ previous_hash g = "0" /\ data g = PyStr "Genesis Block") /\
  (forall (i : nat) (b : Block), chain w !! i = Some b -> index b = Z.of_nat i).
Proof.
  intros H. split; [apply reachable_genesis, H|].
  apply (reachable_indexed w H).
Qed.

Lemma reachable_demo2_tampered : reachable demo2_tampered.
Proof.
  assert (H : tamper_with_block 1 transfer' demo2 = Returns tt demo2_tampered)
    by (vm_compute; reflexivity).
  apply (reach_tamper 1 transfer' demo2 demo2_tampered
           (built_reachable demo2 built_demo2) H).
Qed.

Lemma reachable_chain_shape_witness :
  reachable demo2_tampered /\
  (exists (g : Block) (rest : list Block),
     chain demo2_tampered = g :: rest /\
     index g = 0 /\ previous_hash g = "0" /\ data g = PyStr "Genesis Block") /\
  (forall (i : nat) (b : Block),
     chain demo2_tampered !! i = Some b -> index b = Z.of_nat i).
Proof.
  split; [exact reachable_demo2_tampered|].
  apply reachable_chain_shape. exact reachable_demo2_tampered.
Defined.

(** X2: in a chain made by the constructor and [add_block] alone, every
    block, the first one too, stores the digest of its own fields, that
    digest has the difficulty prefix, and its nonce is not negative. *)
Theorem built_blocks_mined (w : World) :
  built w ->
  forall (i : nat) (b : Block),
    chain w !! i = Some b ->
    compute_hash b = hash b /\
    startswith (hash b) (target w) = true /\
    0 <= nonce b.
Proof.
  induction 1 as [fuel d w0 w Hd H | fuel v w r w' Hb IH H]; intros i b Hi.
  - apply Blockchain_init_sound in H. destruct H as (n & Hn & Hc & Hdw & Hz).
    rewrite Hc in Hi. destruct i as [|i]; [|destruct i; discriminate Hi].
    injection Hi as <-. unfold target. rewrite Hdw.
    split; [apply compute_hash_mined|]. split; [exact Hz|].
    rewrite nonce_mined. exact Hn.
  - destruct (last (chain w)) as [lastb|] eqn:Hlast.
    2: { apply last_None in Hlast.
         destruct (built_invariant w Hb) as [Hne _]. contradiction. }
    destruct (add_block_sound fuel v w lastb r w' Hlast H)
      as (n & Hn & Hz & _ & _ & ->).
    cbn [chain with_chain] in Hi.
    change (target (with_chain (tick (tick (tick w)))
                      (chain w ++ [mined (candidate w lastb v) n])))
      with (target w).
    destruct (Nat.lt_ge_cases i (length (chain w))) as [Hlt|Hge].
    + rewrite lookup_app_l in Hi by exact Hlt. apply (IH i b Hi).
    + assert (Hil : i = length (chain w)).
      { apply lookup_lt_Some in Hi. rewrite length_app in Hi. simpl in Hi. lia. }
      rewrite Hil in Hi. rewrite list_lookup_middle in Hi by reflexivity.
      injection Hi as <-.
      split; [apply compute_hash_mined|]. split; [exact Hz|].
      rewrite nonce_mined. exact Hn.
Qed.

Lemma built_blocks_mined_witness :
  built demo2 /\
  forall (i : nat) (b : Block),
    chain demo2 !! i = Some b ->
    compute_hash b = hash b /\
    startswith (hash b) (target demo2) = true /\
    0 <= nonce b.
Proof.
  split; [exact built_demo2|].
  apply built_blocks_mined. exact built_demo2.
Defined.

(** ** The last block *)

(** X3: on a chain the methods made, [last_block] raises nothing and
    returns the block at the end of the chain, whose index is the length of
    the chain less one. *)
Theorem last_block_of_reachable (w : World) :
  reachable w ->
  exists b : Block,
    last_block w = Returns b w /\
    last (chain w) = Some b /\
    index b = len (chain w) - 1.
Proof.
  intros H. destruct (reachable_indexed w H) as [Hne Hi].
  destruct (last (chain w)) as [b|] eqn:Hl.
  2: { apply last_None in Hl. contradiction. }
  exists b. split; [apply last_block_returns, Hl|]. split; [reflexivity|].
  rewrite last_lookup in Hl. rewrite (Hi _ _ Hl).
  assert (Hpos : (0 < length (chain w))%nat).
  { destruct (chain w); [contradiction | simpl; lia]. }
  unfold len. lia.
Qed.

Lemma last_block_of_reachable_witness :
  reachable demo2 /\
  exists b : Block,
    last_block demo2 = Returns b demo2 /\
    last (chain demo2) = Some b /\
    index b = len (chain demo2) - 1.
Proof.
  split; [exact (built_reachable demo2 built_demo2)|].
  apply last_block_of_reachable. exact (built_reachable demo2 built_demo2).
Defined.

Lemma last_block_empty (w : World) :
  chain w = [] ->
  last_block w = Raises (IndexError "list index out of range") w.
Proof.
  intros Hc. unfold last_block, bind, get_chain. rewrite Hc. reflexivity.
Qed.

Lemma add_block_empty (fuel : nat) (v : pyval) (w : World) :
  chain w = [] ->
  add_block fuel v w = Raises (IndexError "list index out of range") w.
Proof.
  intros Hc. unfold add_block. unfold bind at 1.
  rewrite (last_block_empty w Hc). reflexivity.
Qed.

(** X4: on a chain with no block (which no method leaves behind, but a
    caller can make), [last_block] raises [IndexError], and so does
    [add_block], before it reads the clock, mines or appends anything. *)
Theorem empty_chain_raises (w : World) (fuel : nat) (v : pyval) :
  chain w = [] ->
  last_block w = Raises (IndexError "list index out of range") w /\
  add_block fuel v w = Raises (IndexError "list index out of range") w.
Proof.
  intros Hc. split; [apply last_block_empty, Hc | apply add_block_empty, Hc].
Qed.

Lemma empty_chain_raises_witness :
  chain fresh = [] /\
  last_block fresh = Raises (IndexError "list index out of range") fresh /\
  add_block 64 transfer fresh = Raises (IndexError "list index out of range") fresh.
Proof.
  split; [reflexivity|].
  apply empty_chain_raises. reflexivity.
Defined.

(** ** How calls of [tamper_with_block] combine *)

Lemma with_chain_same (w : World) : with_chain w (chain w) = w.
Proof. destruct w; reflexivity. Qed.

Lemma set_data_set_data (b : Block) (v u : pyval) :
  set_data (set_data b v) u = set_data b u.
Proof. reflexivity. Qed.

Lemma set_data_same (b : Block) : set_data b (data b) = b.
Proof. destruct b; reflexivity. Qed.

(** Two calls in a row on positions in range. *)
Lemma tamper_with_block_twice (w : World) (i j : Z) (v u : pyval) (b c : Block) :
  0 < i < len (chain w) -> chain w !! Z.to_nat i = Some b ->
  0 < j < len (chain w) ->
  <[Z.to_nat i := set_data b v]> (chain w) !! Z.to_nat j = Some c ->
  (_ <- tamper_with_block i v ;; tamper_with_block j u) w
  = Returns tt
      (with_chain w (<[Z.to_nat j := set_data c u]>
                       (<[Z.to_nat i := set_data b v]> (chain w)))).
Proof.
  intros Hi Hb Hj Hc. unfold bind.
  rewrite (tamper_with_block_ok i v w b Hi Hb).
  rewrite (tamper_with_block_ok j u _ c).
  - reflexivity.
  - cbn [chain with_chain]. unfold len in *. rewrite length_insert. exact Hj.
  - exact Hc.
Qed.

(** X5: replacing the payload of a block and then putting the old payload
    back leaves the world exactly as it was (so a chain that was valid is
    valid again). *)
Theorem tamper_with_block_undo (w : World) (i : Z) (v : pyval) (b : Block) :
  0 < i < len (chain w) ->
  chain w !! Z.to_nat i = Some b ->
  (_ <- tamper_with_block i v ;; tamper_with_block i (data b)) w = Returns tt w.
Proof.
  intros Hi Hb.
  rewrite (tamper_with_block_twice w i i v (data b) b (set_data b v) Hi Hb Hi).
  - rewrite list_insert_insert_eq, set_data_set_data, set_data_same.
    rewrite (list_insert_id _ _ _ Hb). rewrite with_chain_same. reflexivity.
  - apply list_lookup_insert_eq. exact (lookup_lt_Some _ _ _ Hb).
Qed.

Lemma tamper_with_block_undo_witness :
  0 < 1 < len (chain demo2) /\
  (_ <- tamper_with_block 1 (PyStr "Hacked data") ;;
   tamper_with_block 1 transfer) demo2 = Returns tt demo2.
Proof.
  assert (Hi : 0 < 1 < len (chain demo2)) by (vm_compute; split; reflexivity).
  assert (Hb : chain demo2 !! Z.to_nat 1
               = Some (mined (candidate demo0 (mined demo_genesis 1) transfer) 14))
    by (vm_compute; reflexivity).
  split; [exact Hi|].
  exact (tamper_with_block_undo demo2 1 (PyStr "Hacked data") _ Hi Hb).
Defined.

(** X6: of two calls in a row on the same index the second one decides:
    the outcome is that of the second call alone, whether the index is in
    range or not. *)
Theorem tamper_with_block_last_wins (w : World) (i : Z) (v u : pyval) :
  (_ <- tamper_with_block i v ;; tamper_with_block i u) w
  = tamper_with_block i u w.
Proof.
  destruct (Z.le_gt_cases i 0) as [Hi|Hi];
    [|destruct (Z.le_gt_cases (len (chain w)) i) as [Hl|Hl]].
  1, 2: unfold bind; rewrite !tamper_with_block_raises by lia; reflexivity.
  destruct (chain w !! Z.to_nat i) as [b|] eqn:Hb.
  2: { apply lookup_ge_None in Hb. unfold len in Hl. lia. }
  rewrite (tamper_with_block_twice w i i v u b (set_data b v)); [|lia|exact Hb|lia|].
  - rewrite list_insert_insert_eq, set_data_set_data.
    symmetry. apply tamper_with_block_ok; [lia | exact Hb].
  - apply list_lookup_insert_eq. exact (lookup_lt_Some _ _ _ Hb).
Qed.

(** X7: calls on two different indices in range can be made in either
    order. *)
Theorem tamper_with_block_commute (w : World) (i j : Z) (v u : pyval) :
  0 < i < len (chain w) -> 0 < j < len (chain w) -> i <> j ->
  (_ <- tamper_with_block i v ;; tamper_with_block j u) w
  = (_ <- tamper_with_block j u ;; tamper_with_block i v) w.
Proof.
  intros Hi Hj Hne.
  destruct (chain w !! Z.to_nat i) as [b|] eqn:Hb.
  2: { apply lookup_ge_None in Hb. unfold len in Hi. lia. }
  destruct (chain w !! Z.to_nat j) as [c|] eqn:Hc.
  2: { apply lookup_ge_None in Hc. unfold len in Hj. lia. }
  assert (Hn : Z.to_nat i <> Z.to_nat j) by lia.
  rewrite (tamper_with_block_twice w i j v u b c Hi Hb Hj).
  2: { rewrite list_lookup_insert_ne by exact Hn. exact Hc. }
  rewrite (tamper_with_block_twice w j i u v c b Hj Hc Hi).
  2: { rewrite list_lookup_insert_ne by (intros E; apply Hn; symmetry; exact E).
       exact Hb. }
  rewrite (list_insert_insert_ne (chain w) (Z.to_nat i) (Z.to_nat j)) by exact Hn.
  reflexivity.
Qed.

Lemma tamper_with_block_commute_witness :
  0 < 1 < len (chain demo2) /\ 0 < 2 < len (chain demo2) /\
  (_ <- tamper_with_block 1 (PyStr "Hacked data") ;; tamper_with_block 2 PyNone) demo2
  = (_ <- tamper_with_block 2 PyNone ;; tamper_with_block 1 (PyStr "Hacked data")) demo2.
Proof.
  assert (H1 : 0 < 1 < len (chain demo2)) by (vm_compute; split; reflexivity).
  assert (H2 : 0 < 2 < len (chain demo2)) by (vm_compute; split; reflexivity).
  split; [exact H1|]. split; [exact H2|].
  apply (tamper_with_block_commute demo2 1 2 _ _ H1 H2). lia.
Defined.

(** ** Tampering, adding and the verdict of [is_chain_valid] *)

(** A walk that succeeds still succeeds when a payload is replaced and the
    digest of the block stays the stored one. *)
Lemma validate_from_retouched (tgt : string) (v : pyval) (b : Block)
    (l2 l1 : list Block) (ph : string) :
  validate_from tgt ph (l1 ++ b :: l2) = success ->
  compute_hash (set_data b v) = hash b ->
  validate_from tgt ph (l1 ++ set_data b v :: l2) = success.
Proof.
  intros H He. revert ph H. induction l1 as [|x l1 IH]; intros ph H.
  - cbn [app validate_from] in *.
    change (previous_hash (set_data b v)) with (previous_hash b).
    change (hash (set_data b v)) with (hash b).
    change (index (set_data b v)) with (index b).
    destruct (negb (String.eqb (previous_hash b) ph)).
    { apply failure_not_success in H. contradiction. }
    rewrite He, String.eqb_refl. cbn [negb].
    destruct (negb (String.eqb (compute_hash b) (hash b))).
    { apply failure_not_success in H. contradiction. }
    exact H.
  - cbn [app validate_from] in *.
    destruct (negb (String.eqb (previous_hash x) ph)).
    { apply failure_not_success in H. contradiction. }
    destruct (negb (String.eqb (compute_hash x) (hash x))).
    { apply failure_not_success in H. contradiction. }
    destruct (negb (startswith (hash x) tgt)).
    { apply failure_not_success in H. contradiction. }
    apply IH, H.
Qed.

(** X8: on a chain the methods made and [is_chain_valid] accepts,
    [tamper_with_block(i, new_data)] with [0 < i < len(chain)] has one of two
    effects on the verdict: it stays success when the digest of the block
    with the new payload is still the stored digest, and it becomes the
    failure of block [i] at the digest check otherwise. No other block and no
    other check is ever reported. *)
Theorem tamper_verdict (w : World) (i : Z) (v : pyval) (b : Block) :
  reachable w ->
  is_chain_valid w = Returns success w ->
  0 < i < len (chain w) ->
  chain w !! Z.to_nat i = Some b ->
  exists w' : World,
    tamper_with_block i v w = Returns tt w' /\
    is_chain_valid w'
    = Returns (if String.eqb (compute_hash (set_data b v)) (hash b)
               then success else failure i HashMatch) w'.
Proof.
  intros Hreach Hv Hi Hb.
  exists (with_chain w (<[Z.to_nat i := set_data b v]> (chain w))).
  split; [apply tamper_with_block_ok; [exact Hi | exact Hb]|].
  destruct (reachable_indexed w Hreach) as [_ Hidx].
  assert (Hib : index b = i).
  { rewrite (Hidx _ _ Hb). lia. }
  destruct (chain w) as [|g rest] eqn:Hc; [discriminate Hb|].
  rewrite (is_chain_valid_walk w g rest Hc) in Hv.
  apply Returns_inj in Hv as [Hv _].
  destruct (Z.to_nat i) as [|j] eqn:Hj; [lia|].
  cbn [lookup list_lookup] in Hb. change (rest !! j = Some b) in Hb.
  assert (Hc' : chain (with_chain w (<[S j := set_data b v]> (g :: rest)))
                = g :: <[j := set_data b v]> rest) by reflexivity.
  rewrite (is_chain_valid_walk _ _ _ Hc').
  f_equal.
  change (target (with_chain w (<[S j := set_data b v]> (g :: rest)))) with (target w).
  rewrite insert_take_drop by exact (lookup_lt_Some _ _ _ Hb).
  rewrite <- (take_drop_middle rest j b Hb) in Hv.
  destruct (String.eqb_spec (compute_hash (set_data b v)) (hash b)) as [E|E].
  - apply (validate_from_retouched _ v b _ _ _ Hv E).
  - rewrite (validate_from_tampered _ v b _ _ _ Hv E). rewrite Hib. reflexivity.
Qed.

Lemma tamper_verdict_witness :
  exists w' : World,
    tamper_with_block 1 transfer' demo2 = Returns tt w' /\
    is_chain_valid w'
    = Returns (if String.eqb
                    (compute_hash
                       (set_data (mined (candidate demo0 (mined demo_genesis 1) transfer) 14)
                          transfer'))
                    (hash (mined (candidate demo0 (mined demo_genesis 1) transfer) 14))
               then success else failure 1 HashMatch) w'.
Proof.
  assert (Hv : is_chain_valid demo2 = Returns success demo2)
    by (vm_compute; reflexivity).
  assert (Hi : 0 < 1 < len (chain demo2)) by (vm_compute; split; reflexivity).
  assert (Hb : chain demo2 !! Z.to_nat 1
               = Some (mined (candidate demo0 (mined demo_genesis 1) transfer) 14))
    by (vm_compute; reflexivity).
  exact (tamper_verdict demo2 1 transfer' _
           (built_reachable demo2 built_demo2) Hv Hi Hb).
Defined.

(** The walk over a list with one more block behind it. *)
Lemma validate_from_snoc (tgt : string) (b : Block) (rest : list Block)
    (ph : string) :
  validate_from tgt ph (rest ++ [b])
  = if bool_decide (validate_from tgt ph rest = success)
    then validate_from tgt (default ph (hash <$> last rest)) [b]
    else validate_from tgt ph rest.
Proof.
  revert ph. induction rest as [|x rest IH]; intros ph.
  - cbn [app]. rewrite bool_decide_eq_true_2 by reflexivity. reflexivity.
  - cbn [app]. cbn [validate_from].
    destruct (negb (String.eqb (previous_hash x) ph)).
    { rewrite bool_decide_eq_false_2 by apply failure_not_success. reflexivity. }
    destruct (negb (String.eqb (compute_hash x) (hash x))).
    { rewrite bool_decide_eq_false_2 by apply failure_not_success. reflexivity. }
    destruct (negb (startswith (hash x) tgt)).
    { rewrite bool_decide_eq_false_2 by apply failure_not_success. reflexivity. }
    rewrite IH. destruct rest as [|y rest]; [reflexivity|].
    rewrite last_cons_cons. destruct (last (y :: rest)) eqn:Hl; [reflexivity|].
    apply last_None in Hl. discriminate Hl.
Qed.

(** X9: [add_block] never changes the verdict of [is_chain_valid]: on a
    chain with a last block, when it returns, [is_chain_valid] answers after
    it what it answered before it, success or the same failure. A block
    added behind a tampered block does not hide the tampering, nor repair
    it. *)
Theorem add_block_keeps_verdict (fuel : nat) (v : pyval) (w : World)
    (lastb : Block) (r : pyval) (w' : World) :
  last (chain w) = Some lastb ->
  add_block fuel v w = Returns r w' ->
  exists res : bool * string,
    is_chain_valid w = Returns res w /\ is_chain_valid w' = Returns res w'.
Proof.
  intros Hl H.
  destruct (add_block_sound fuel v w lastb r w' Hl H)
    as (n & _ & Hz & _ & _ & ->).
  destruct (chain w) as [|g rest] eqn:Hc; [discriminate Hl|].
  exists (validate_from (target w) (hash g) rest).
  split; [apply is_chain_valid_walk, Hc|].
  assert (Hc' : chain (with_chain (tick (tick (tick w)))
                         ((g :: rest) ++ [mined (candidate w lastb v) n]))
                = g :: (rest ++ [mined (candidate w lastb v) n])) by reflexivity.
  rewrite (is_chain_valid_walk _ _ _ Hc'). f_equal.
  change (target (with_chain (tick (tick (tick w)))
                    ((g :: rest) ++ [mined (candidate w lastb v) n])))
    with (target w).
  rewrite validate_from_snoc.
  destruct (bool_decide (validate_from (target w) (hash g) rest = success)) eqn:Hd;
    [|reflexivity].
  apply bool_decide_eq_true_1 in Hd. rewrite Hd.
  assert (Hh : default (hash g) (hash <$> last rest) = hash lastb).
  { destruct rest as [|y rest].
    - injection Hl as <-. reflexivity.
    - rewrite last_cons_cons in Hl. rewrite Hl. reflexivity. }
  rewrite Hh. cbn [validate_from].
  destruct (candidate_fields w lastb v n) as (_ & _ & _ & Hp).
  rewrite Hp, String.eqb_refl. cbn [negb].
  rewrite compute_hash_mined, String.eqb_refl. cbn [negb].
  rewrite Hz. reflexivity.
Qed.

Lemma add_block_keeps_verdict_witness :
  is_chain_valid demo2_hacked = Returns (failure 1 HashMatch) demo2_hacked /\
  is_chain_valid demo3_hacked = Returns (failure 1 HashMatch) demo3_hacked.
Proof.
  assert (Hv : is_chain_valid demo2_hacked = Returns (failure 1 HashMatch) demo2_hacked)
    by (vm_compute; reflexivity).
  assert (Hl : last (chain demo2_hacked)
               = Some (mined (candidate demo1 (mined (candidate demo0 (mined demo_genesis 1)
                                                         transfer) 14)
                                (PyStr "Second transaction")) 12))
    by (vm_compute; reflexivity).
  assert (Ha : add_block 64 (PyStr "Third transaction") demo2_hacked
               = Returns (result_of (add_block 64 (PyStr "Third transaction") demo2_hacked))
                   demo3_hacked)
    by (vm_compute; reflexivity).
  destruct (add_block_keeps_verdict 64 _ demo2_hacked _ _ _ Hl Ha) as (res & H1 & H2).
  rewrite Hv in H1. apply Returns_inj in H1 as [<- _].
  split; [exact Hv | exact H2].
Defined.

(** X10: [tamper_with_block] leaves the nonces alone, so [average_nonce]
    gives after it the outcome it gave before it. *)
Theorem tamper_keeps_average_nonce (w w' : World) (i : Z) (v : pyval) :
  tamper_with_block i v w = Returns tt w' ->
  average_nonce w'
  = match average_nonce w with
    | Returns x _ => Returns x w'
    | Raises e _ => Raises e w'
    | Diverges => Diverges
    end.
Proof.
  intros H. apply tamper_with_block_returns in H.
  destruct H as (b & Hi & Hb & ->).
  rewrite !average_nonce_unfold. cbn [chain with_chain].
  assert (Hn : map nonce (<[Z.to_nat i := set_data b v]> (chain w))
               = map nonce (chain w)).
  { change (nonce <$> <[Z.to_nat i := set_data b v]> (chain w) = nonce <$> chain w).
    rewrite list_fmap_insert. apply list_insert_id.
    rewrite list_lookup_fmap, Hb. reflexivity. }
  assert (Hd : map nonce (drop 1 (<[Z.to_nat i := set_data b v]> (chain w)))
               = map nonce (drop 1 (chain w))).
  { change (nonce <$> drop 1 (<[Z.to_nat i := set_data b v]> (chain w))
            = nonce <$> drop 1 (chain w)).
    rewrite !fmap_drop. f_equal. exact Hn. }
  rewrite Hd. unfold len. rewrite length_insert.
  destruct (Z.of_nat (length (chain w)) <=? 1); [reflexivity|].
  unfold truediv.
  destruct (Z.of_nat (length (chain w)) - 1 =? 0); [reflexivity|].
  destruct (Float64.div_int _ _); reflexivity.
Qed.

Lemma tamper_keeps_average_nonce_witness :
  tamper_with_block 1 (PyStr "Hacked data") demo2 = Returns tt demo2_hacked /\
  average_nonce demo2 = Returns 13%float demo2 /\
  average_nonce demo2_hacked = Returns 13%float demo2_hacked.
Proof.
  assert (Ht : tamper_with_block 1 (PyStr "Hacked data") demo2 = Returns tt demo2_hacked)
    by (vm_compute; reflexivity).
  assert (Ha : average_nonce demo2 = Returns 13%float demo2)
    by (vm_compute; reflexivity).
  split; [exact Ht|]. split; [exact Ha|].
  rewrite (tamper_keeps_average_nonce demo2 demo2_hacked 1 _ Ht), Ha. reflexivity.
Defined.

(** ** Payloads that json writes the same way *)

Lemma block_string_tuple (b : Block) (items : list pyval) :
  data b = PyList items ->
  block_string (set_data b (PyTuple items)) = block_string b.
Proof.
  intros Hd. unfold block_string.
  cbn [index timestamp data previous_hash nonce set_data]. rewrite Hd.
  reflexivity.
Qed.

Lemma compute_hash_tuple (b : Block) (items : list pyval) :
  data b = PyList items ->
  compute_hash (set_data b (PyTuple items)) = compute_hash b.
Proof.
  intros Hd.
  change (SHA256.hexdigest (encode (block_string (set_data b (PyTuple items))))
          = SHA256.hexdigest (encode (block_string b))).
  rewrite (block_string_tuple b items Hd). reflexivity.
Qed.

(** X11: [json.dumps] writes a tuple as it writes the list of the same
    items, so replacing a list payload by that tuple is a tampering that
    [is_chain_valid] never sees: on a chain it accepts, it still answers
    success afterwards, though the payload is another value. *)
Theorem tamper_list_to_tuple_undetected (w : World) (i : Z) (b : Block)
    (items : list pyval) :
  is_chain_valid w = Returns success w ->
  0 < i < len (chain w) ->
  chain w !! Z.to_nat i = Some b ->
  data b = PyList items ->
  exists w' : World,
    tamper_with_block i (PyTuple items) w = Returns tt w' /\
    data <$> chain w' !! Z.to_nat i = Some (PyTuple items) /\
    PyTuple items <> data b /\
    is_chain_valid w' = Returns success w'.
Proof.
  intros Hv Hi Hb Hd.
  exists (with_chain w (<[Z.to_nat i := set_data b (PyTuple items)]> (chain w))).
  split; [apply tamper_with_block_ok; [exact Hi | exact Hb]|].
  cbn [chain with_chain]. split.
  { rewrite list_lookup_insert_eq by exact (lookup_lt_Some _ _ _ Hb). reflexivity. }
  split; [rewrite Hd; discriminate|].
  assert (He : compute_hash (set_data b (PyTuple items)) = hash b).
  { rewrite (compute_hash_tuple b items Hd).
    destruct (chain w !! pred (Z.to_nat i)) as [p|] eqn:Hp.
    - apply (valid_linked w Hv (pred (Z.to_nat i)) p b Hp) with (k := HashMatch).
      replace (S (pred (Z.to_nat i))) with (Z.to_nat i) by lia. exact Hb.
    - apply lookup_ge_None in Hp. pose proof (lookup_lt_Some _ _ _ Hb). lia. }
  destruct (chain w) as [|g rest] eqn:Hc; [discriminate Hb|].
  rewrite (is_chain_valid_walk w g rest Hc) in Hv.
  apply Returns_inj in Hv as [Hv _].
  destruct (Z.to_nat i) as [|j] eqn:Hj; [lia|].
  cbn [lookup list_lookup] in Hb. change (rest !! j = Some b) in Hb.
  assert (Hc' : chain (with_chain w (<[S j := set_data b (PyTuple items)]> (g :: rest)))
                = g :: <[j := set_data b (PyTuple items)]> rest) by reflexivity.
  rewrite (is_chain_valid_walk _ _ _ Hc'). f_equal.
  change (target (with_chain w (<[S j := set_data b (PyTuple items)]> (g :: rest))))
    with (target w).
  rewrite insert_take_drop by exact (lookup_lt_Some _ _ _ Hb).
  rewrite <- (take_drop_middle rest j b Hb) in Hv.
  apply (validate_from_retouched _ _ b _ _ _ Hv He).
Qed.

Lemma tamper_list_to_tuple_undetected_witness :
  exists w' : World,
    tamper_with_block 1 (PyTuple [PyStr "alice"; PyStr "bob"; PyInt 5]) demo2
    = Returns tt w' /\
    data <$> chain w' !! Z.to_nat 1
    = Some (PyTuple [PyStr "alice"; PyStr "bob"; PyInt 5]) /\
    PyTuple [PyStr "alice"; PyStr "bob"; PyInt 5]
    <> data (mined (candidate demo0 (mined demo_genesis 1) transfer) 14) /\
    is_chain_valid w' = Returns success w'.
Proof.
  assert (Hv : is_chain_valid demo2 = Returns success demo2)
    by (vm_compute; reflexivity).
  assert (Hi : 0 < 1 < len (chain demo2)) by (vm_compute; split; reflexivity).
  assert (Hb : chain demo2 !! Z.to_nat 1
               = Some (mined (candidate demo0 (mined demo_genesis 1) transfer) 14))
    by (vm_compute; reflexivity).
  assert (Hd : data (mined (candidate demo0 (mined demo_genesis 1) transfer) 14)
               = PyList [PyStr "alice"; PyStr "bob"; PyInt 5])
    by (vm_compute; reflexivity).
  exact (tamper_list_to_tuple_undetected demo2 1 _ _ Hv Hi Hb Hd).
Defined.

(** ** Mining at the ends of the range of difficulties *)

Lemma str_mul_nonpositive (s : string) (n : Z) : n <= 0 -> str_mul s n = EmptyString.
Proof.
  intros H. unfold str_mul. replace (Z.to_nat n) with 0%nat by lia. reflexivity.
Qed.

Lemma startswith_empty (s : string) : startswith s EmptyString = true.
Proof. destruct s; reflexivity. Qed.

(** X12: with a difficulty of 0 or less the target is the empty string,
    which every digest starts with: [proof_of_work] returns in its first
    round, on the nonce the block came with, having stored the digest of the
    block. A negative difficulty is taken without complaint and behaves as
    0. *)
Theorem proof_of_work_without_difficulty (fuel : nat) (block : Block) (w : World) :
  difficulty w <= 0 ->
  proof_of_work (S fuel) block w
  = Returns (set_hash block (compute_hash block),
             (compute_hash block, nonce block,
              PrimFloat.sub (clock w (S (ticks w))) (clock w (ticks w))))
      (tick (tick w)).
Proof.
  intros Hd. rewrite proof_of_work_unfold. unfold target.
  rewrite (str_mul_nonpositive "0" (difficulty w) Hd).
  cbn [proof_of_work_loop]. cbv zeta.
  rewrite startswith_empty. reflexivity.
Qed.

Lemma proof_of_work_without_difficulty_witness :
  difficulty (mkWorld [] (-3) demo_clock 1) <= 0 /\
  proof_of_work 1 demo_genesis (mkWorld [] (-3) demo_clock 1)
  = Returns (set_hash demo_genesis (compute_hash demo_genesis),
             (compute_hash demo_genesis, nonce demo_genesis,
              PrimFloat.sub (demo_clock 2) (demo_clock 1)))
      (tick (tick (mkWorld [] (-3) demo_clock 1))).
Proof.
  assert (Hd : difficulty (mkWorld [] (-3) demo_clock 1) <= 0)
    by (vm_compute; discriminate).
  split; [exact Hd|].
  exact (proof_of_work_without_difficulty 0 demo_genesis _ Hd).
Defined.

(** The digest is 64 characters long. *)
Lemma length_hex (l : list Z) (k : string) :
  String.length (fold_right SHA256.hex_byte k l)
  = (2 * length l + String.length k)%nat.
Proof.
  induction l as [|x l IH]; [reflexivity|].
  cbn [fold_right length]. unfold SHA256.hex_byte at 1.
  cbn [String.length]. rewrite IH. lia.
Qed.

Lemma length_be_bytes (n : nat) (x : Z) : length (SHA256.be_bytes n x) = n.
Proof.
  induction n as [|n IH]; [reflexivity|].
  cbn [SHA256.be_bytes length]. rewrite IH. reflexivity.
Qed.

Lemma length_words_bytes (ws : list Z) :
  length (concat (map (SHA256.be_bytes 4) ws)) = (4 * length ws)%nat.
Proof.
  induction ws as [|x ws IH]; [reflexivity|].
  cbn [map concat]. rewrite length_app, length_be_bytes, IH.
  cbn [length]. lia.
Qed.

Lemma length_round (st : list Z) (kw : Z * Z) :
  length (SHA256.round st kw) = length st.
Proof.
  destruct st as [|a [|b [|c [|d [|e [|f [|g [|h [|i t]]]]]]]]]; reflexivity.
Qed.

Lemma length_rounds (kws : list (Z * Z)) (st : list Z) :
  length (fold_left SHA256.round kws st) = length st.
Proof.
  revert st. induction kws as [|kw kws IH]; intros st; [reflexivity|].
  cbn [fold_left]. rewrite IH. apply length_round.
Qed.

Lemma length_compress (h block : list Z) :
  length (SHA256.compress h block) = length h.
Proof.
  unfold SHA256.compress. cbv zeta.
  rewrite length_zip_with, length_rounds. lia.
Qed.

Lemma length_compressions (blocks : list (list Z)) (h : list Z) :
  length (fold_left SHA256.compress blocks h) = length h.
Proof.
  revert h. induction blocks as [|x blocks IH]; intros h; [reflexivity|].
  cbn [fold_left]. rewrite IH. apply length_compress.
Qed.

Lemma length_hexdigest (msg : list Z) :
  String.length (SHA256.hexdigest msg) = 64%nat.
Proof.
  unfold SHA256.hexdigest, SHA256.digest. cbv zeta.
  rewrite length_hex, length_words_bytes, length_compressions.
  reflexivity.
Qed.

Lemma length_compute_hash (b : Block) : String.length (compute_hash b) = 64%nat.
Proof.
  change (compute_hash b) with (SHA256.hexdigest (encode (block_string b))).
  apply length_hexdigest.
Qed.

Lemma length_str_mul_zero (n : nat) :
  String.length (str_mul "0" (Z.of_nat n)) = n.
Proof.
  induction n as [|n IH]; [reflexivity|].
  rewrite str_mul_zero_succ. cbn [String.length]. rewrite IH. reflexivity.
Qed.

Lemma startswith_length (s t : string) :
  startswith s t = true -> (String.length t <= String.length s)%nat.
Proof.
  unfold startswith. revert s. induction t as [|a t IH]; intros s H.
  - cbn [String.length]. lia.
  - destruct s as [|c s]; [discriminate H|].
    rewrite prefix_cons in H. destruct (Ascii.eqb c a); [|discriminate H].
    cbn [String.length]. apply IH in H. lia.
Qed.

Lemma proof_of_work_loop_diverges (fuel : nat) (tgt : string) (start : float) :
  (forall b : Block, startswith (compute_hash b) tgt = false) ->
  forall (block : Block) (w : World),
    proof_of_work_loop fuel tgt start block w = Diverges.
Proof.
  intros Hno. induction fuel as [|fuel IH]; intros block w; [reflexivity|].
  cbn [proof_of_work_loop]. cbv zeta.
  change (hash (set_hash block (compute_hash block))) with (compute_hash block).
  rewrite Hno. apply IH.
Qed.

(** X13: a digest has 64 characters, so no digest starts with more than 64
    zeros: with a difficulty above 64 [proof_of_work] finds no nonce however
    many rounds it is given, and [Blockchain(difficulty)] never returns. *)
Theorem proof_of_work_diverges_above_64 (fuel : nat) (d : Z) :
  64 < d ->
  (forall (block : Block) (w : World),
     difficulty w = d -> proof_of_work fuel block w = Diverges) /\
  (forall w0 : World, Blockchain_init fuel d w0 = Diverges).
Proof.
  intros Hd.
  assert (Hno : forall b : Block, startswith (compute_hash b) (str_mul "0" d) = false).
  { intros b. destruct (startswith (compute_hash b) (str_mul "0" d)) eqn:E;
      [|reflexivity].
    apply startswith_length in E. rewrite length_compute_hash in E.
    rewrite <- (Z2Nat.id d) in E by lia. rewrite length_str_mul_zero in E. lia. }
  split.
  - intros block w Hw. rewrite proof_of_work_unfold. unfold target. rewrite Hw.
    apply proof_of_work_loop_diverges, Hno.
  - intros w0. unfold Blockchain_init, create_genesis_block.
    unfold bind at 1 2 3 4, set_chain at 1, set_difficulty, time_time at 1.
    rewrite proof_of_work_unfold.
    change (target (tick (with_difficulty (with_chain w0 []) d))) with (str_mul "0" d).
    rewrite (proof_of_work_loop_diverges fuel (str_mul "0" d) _ Hno). reflexivity.
Qed.

Lemma proof_of_work_diverges_above_64_witness :
  64 < 65 /\ Blockchain_init 1000 65 fresh = Diverges.
Proof.
  assert (Hd : 64 < 65) by lia.
  split; [exact Hd|].
  apply (proof_of_work_diverges_above_64 1000 65 Hd).
Defined.

(** ** The bound on the rounds of mining *)

Lemma proof_of_work_loop_more_fuel (fuel : nat) (tgt : string) (start : float) :
  forall (block : Block) (w : World) (r : Block * (string * Z * float)) (w' : World),
    proof_of_work_loop fuel tgt start block w = Returns r w' ->
    forall k : nat, proof_of_work_loop (fuel + k) tgt start block w = Returns r w'.
Proof.
  induction fuel as [|fuel IH]; intros block w r w' H k; [discriminate H|].
  cbn [Nat.add proof_of_work_loop] in *. cbv zeta in *.
  destruct (startswith (hash (set_hash block (compute_hash block))) tgt).
  - exact H.
  - apply IH, H.
Qed.

Lemma Blockchain_init_unfold (fuel : nat) (d : Z) (w0 : World) :
  Blockchain_init fuel d w0 =
  match proof_of_work fuel
          (Block_init 0 (clock w0 (ticks w0)) (PyStr "Genesis Block") "0" 0)
          (tick (with_difficulty (with_chain w0 []) d)) with
  | Returns r w1 =>
      Returns tt (with_chain w1 (chain w1 ++ [set_hash (fst r) (fst (fst (snd r)))]))
  | Raises e w1 => Raises e w1
  | Diverges => Diverges
  end.
Proof.
  unfold Blockchain_init, create_genesis_block.
  unfold bind at 1 2 3 4, set_chain at 1, set_difficulty, time_time at 1.
  destruct (proof_of_work fuel _ _) as [r w1|e w1|]; reflexivity.
Qed.

(** The bound on the rounds of mining decides only whether a call is seen to
    return, never what it returns: a constructor call or an [add_block] that
    returns within some bound returns the same result and leaves the same
    world within any larger bound. *)
Lemma more_fuel_same_result (fuel fuel' : nat) :
  (fuel <= fuel')%nat ->
  (forall (d : Z) (w0 w : World),
     Blockchain_init fuel d w0 = Returns tt w ->
     Blockchain_init fuel' d w0 = Returns tt w) /\
  (forall (v : pyval) (w : World) (r : pyval) (w' : World),
     add_block fuel v w = Returns r w' ->
     add_block fuel' v w = Returns r w').
Proof.
  intros Hle. replace fuel' with (fuel + (fuel' - fuel))%nat by lia.
  assert (Hpow : forall block w r w',
            proof_of_work fuel block w = Returns r w' ->
            proof_of_work (fuel + (fuel' - fuel)) block w = Returns r w').
  { intros block w r w' H. rewrite proof_of_work_unfold in *.
    apply proof_of_work_loop_more_fuel, H. }
  split.
  - intros d w0 w H. rewrite Blockchain_init_unfold in *.
    destruct (proof_of_work fuel _ _) as [r w1|e w1|] eqn:E;
      [|discriminate H|discriminate H].
    rewrite (Hpow _ _ _ _ E). exact H.
  - intros v w r w' H.
    destruct (last (chain w)) as [lastb|] eqn:Hl.
    + rewrite (add_block_unfold fuel v w lastb Hl) in H.
      rewrite (add_block_unfold (fuel + (fuel' - fuel)) v w lastb Hl).
      destruct (proof_of_work fuel _ _) as [r1 w1|e w1|] eqn:E;
        [|discriminate H|discriminate H].
      rewrite (Hpow _ _ _ _ E). exact H.
    + apply last_None in Hl.
      rewrite (add_block_empty fuel v w Hl) in H. discriminate H.
Qed.

(** ** What the constructor and [add_block] make *)

(** X14: when [Blockchain(difficulty)] returns, whatever the attributes
    were before, the chain holds one block: index 0, payload
    ["Genesis Block"], [previous_hash] ["0"], the first reading of the clock
    as timestamp; the block stores the digest of its fields, which has the
    difficulty prefix, and its nonce is the first from 0 to give such a
    digest; the difficulty is the one given. And the constructor does return
    when it has rounds enough to reach such a nonce. *)
Theorem Blockchain_init_genesis (fuel : nat) (d : Z) (w0 : World) :
  (forall w : World,
     Blockchain_init fuel d w0 = Returns tt w ->
     exists g : Block,
       chain w = [g] /\ difficulty w = d /\
       index g = 0 /\ data g = PyStr "Genesis Block" /\ previous_hash g = "0" /\
       timestamp g = clock w0 (ticks w0) /\
       hash g = compute_hash g /\
       startswith (hash g) (str_mul "0" d) = true /\
       0 <= nonce g /\
       (forall k, 0 <= k < nonce g ->
          startswith (compute_hash (set_nonce g k)) (str_mul "0" d) = false)) /\
  (forall n : Z,
     0 <= n ->
     startswith
       (compute_hash
          (set_nonce (Block_init 0 (clock w0 (ticks w0)) (PyStr "Genesis Block") "0" 0) n))
       (str_mul "0" d) = true ->
     (Z.to_nat n < fuel)%nat ->
     exists w, Blockchain_init fuel d w0 = Returns tt w).
Proof.
  split.
  - intros w H. rewrite Blockchain_init_unfold in H.
    destruct (proof_of_work fuel _ _) as [r w1|e w1|] eqn:E;
      [|discriminate H|discriminate H].
    apply proof_of_work_sound in E. destruct E as (n & Hle & Hn & Hk & -> & ->).
    cbn [fst snd] in H. rewrite set_hash_same in H.
    apply Returns_inj in H as [_ <-].
    eexists. split; [reflexivity|]. split; [reflexivity|].
    split; [reflexivity|]. split; [reflexivity|]. split; [reflexivity|].
    split; [reflexivity|].
    split; [symmetry; apply compute_hash_mined|]. split; [exact Hn|].
    rewrite nonce_mined. split; [exact Hle|].
    intros k Hlt. rewrite compute_hash_set_nonce_mined. apply Hk, Hlt.
  - intros n Hle Hn Hf. apply (Blockchain_init_complete fuel d w0 n Hle Hn Hf).
Qed.

Lemma Blockchain_init_genesis_witness :
  exists g : Block,
    chain demo0 = [g] /\ difficulty demo0 = 1 /\
    index g = 0 /\ data g = PyStr "Genesis Block" /\ previous_hash g = "0" /\
    timestamp g = clock fresh (ticks fresh) /\
    hash g = compute_hash g /\
    startswith (hash g) (str_mul "0" 1) = true /\
    0 <= nonce g /\
    (forall k, 0 <= k < nonce g ->
       startswith (compute_hash (set_nonce g k)) (str_mul "0" 1) = false).
Proof.
  assert (H : Blockchain_init 64 1 fresh = Returns tt demo0)
    by (vm_compute; reflexivity).
  exact (proj1 (Blockchain_init_genesis 64 1 fresh) demo0 H).
Defined.

(** X15: on a chain the methods made, the index in the dict [add_block]
    returns is the length the chain had before the call, and the block added
    stands at that position. *)
Theorem add_block_index_is_position (fuel : nat) (v : pyval) (w : World)
    (r : pyval) (w' : World) :
  reachable w ->
  add_block fuel v w = Returns r w' ->
  exists (b : Block) (t : float),
    r = summary b t /\
    index b = len (chain w) /\
    chain w' !! Z.to_nat (len (chain w)) = Some b /\
    len (chain w') = len (chain w) + 1.
Proof.
  intros Hr H. destruct (reachable_indexed w Hr) as [Hne Hi].
  destruct (last (chain w)) as [lastb|] eqn:Hl.
  2: { apply last_None in Hl. contradiction. }
  destruct (add_block_sound fuel v w lastb r w' Hl H)
    as (n & _ & _ & _ & -> & ->).
  eexists. eexists. split; [reflexivity|].
  assert (Hpos : (0 < length (chain w))%nat).
  { destruct (chain w); [contradiction | simpl; lia]. }
  split.
  - destruct (candidate_fields w lastb v n) as (Hx & _). rewrite Hx.
    rewrite last_lookup in Hl. rewrite (Hi _ _ Hl). unfold len. lia.
  - cbn [chain with_chain]. split.
    + apply list_lookup_middle. unfold len. lia.
    + rewrite len_app. reflexivity.
Qed.

Lemma add_block_index_is_position_witness :
  reachable demo2 /\
  exists (b : Block) (t : float),
    result_of (add_block 64 (PyStr "Third transaction") demo2) = summary b t /\
    index b = len (chain demo2).
Proof.
  assert (Ha : add_block 64 (PyStr "Third transaction") demo2
               = Returns (result_of (add_block 64 (PyStr "Third transaction") demo2))
                   (world_of (add_block 64 (PyStr "Third transaction") demo2)))
    by (vm_compute; reflexivity).
  split; [exact (built_reachable demo2 built_demo2)|].
  destruct (add_block_index_is_position 64 _ demo2 _ _
              (built_reachable demo2 built_demo2) Ha) as (b & t & Hs & Hi & _).
  exists b, t. split; [exact Hs | exact Hi].
Defined.
